(** * 2D basketball: the shot controller and its per-frame simulation

    A shallow embedding of [AppComponent] (the aim / fire state machine and
    [updateGameState], the per-frame physics step) and of [GeminiService]
    (the commentary collaborator).

    JavaScript numbers are IEEE-754 binary64 values.  The program is written
    once, over an interface [Number] of the arithmetic it uses, and the
    interface is instantiated twice:

    - [float_Number]: Rocq's primitive binary64 floats, which is what the
      program runs on; every definition evaluates there with [vm_compute];
    - [R_Number]: the real numbers, i.e. the same program with exact
      arithmetic, used for the statements about magnitudes and lengths,
      which hold up to rounding only.

    Statements about control flow are proved for every lawful [Number] and
    hence for both.

    The viewport size is a parameter of every handler that reads it.  The
    state is the component's fields together with the part of the browser
    they interact with (pending animation frames, timers, commentary calls
    in flight, console).  The display-only computed signals ([ballTransform],
    the shadow, [aimLine]) are not part of the model. *)

From Stdlib Require Import ZArith QArith Reals Lra Lia Floats Bool String Ascii List.
Import ListNotations.

Set Warnings "-inexact-float".

(** ** Numbers *)

Class Number (T : Type) := {
  ofQ : Q -> T;              (* the value of a numeric literal *)
  add : T -> T -> T;
  sub : T -> T -> T;
  mul : T -> T -> T;
  div : T -> T -> T;
  neg : T -> T;              (* unary minus *)
  ltb : T -> T -> bool;      (* a < b *)
  eqb : T -> T -> bool;      (* a === b *)
  abs : T -> T;              (* Math.abs *)
  sqrt : T -> T;             (* Math.sqrt *)
  hypot : T -> T -> T;       (* Math.hypot, two arguments *)
  max : T -> T -> T;         (* Math.max *)
  min : T -> T -> T;         (* Math.min *)
  isFinite : T -> bool       (* Number.isFinite *)
}.

Declare Scope js_scope.
Delimit Scope js_scope with js.
Notation "a + b" := (add a b) : js_scope.
Notation "a - b" := (sub a b) : js_scope.
Notation "a * b" := (mul a b) : js_scope.
Notation "a / b" := (div a b) : js_scope.
Notation "- a" := (neg a) : js_scope.
Notation "a <? b" := (ltb a b) : js_scope.
Notation "a >? b" := (ltb b a) : js_scope.
Notation "a =? b" := (eqb a b) : js_scope.

(** The facts about numbers that the control flow relies on. *)
Class NumberLaws (T : Type) `{Number T} : Prop := {
  ltb_irrefl : forall a : T, ltb a a = false;
  ltb_asym : forall a b : T, ltb a b = true -> ltb b a = false;
  sub_diag : forall a : T, isFinite a = true -> sub a a = ofQ 0;
  sqrt_zero : eqb (sqrt (add (mul (ofQ 0) (ofQ 0)) (mul (ofQ 0) (ofQ 0)))) (ofQ 0) = true
}.

(** *** IEEE-754 binary64 *)

Module F64.

(** The float nearest to an integer. *)
Definition of_Z (z : Z) : float := SF2Prim (binary_normalize prec emax z 0 false).

(** A decimal literal denotes the float nearest to its value; for the
    literals of this program (numerator and denominator below 2^53) that is
    the correctly rounded quotient. *)
Definition of_Q (q : Q) : float := PrimFloat.div (of_Z (Qnum q)) (of_Z (Zpos (Qden q))).

Definition is_zero (a : float) : bool := PrimFloat.eqb a 0%float.

(** [Math.max]: NaN if either argument is, and [+0] above [-0]. *)
Definition max (a b : float) : float :=
  if (is_nan a || is_nan b)%bool then nan
  else if PrimFloat.ltb a b then b
  else if PrimFloat.ltb b a then a
  else if is_zero a then PrimFloat.add a b
  else a.

(** [Math.min]: NaN if either argument is, and [-0] below [+0]. *)
Definition min (a b : float) : float :=
  if (is_nan a || is_nan b)%bool then nan
  else if PrimFloat.ltb a b then a
  else if PrimFloat.ltb b a then b
  else if is_zero a then PrimFloat.opp (PrimFloat.add (PrimFloat.opp a) (PrimFloat.opp b))
  else a.

(** [Math.hypot] is only required to approximate the square root of the sum
    of squares; it is taken here as the rounded formula. *)
Definition hypot (a b : float) : float :=
  PrimFloat.sqrt (PrimFloat.add (PrimFloat.mul a a) (PrimFloat.mul b b)).

End F64.

#[export] Instance float_Number : Number float := {
  ofQ := F64.of_Q;
  add := PrimFloat.add;
  sub := PrimFloat.sub;
  mul := PrimFloat.mul;
  div := PrimFloat.div;
  neg := PrimFloat.opp;
  ltb := PrimFloat.ltb;
  eqb := PrimFloat.eqb;
  abs := PrimFloat.abs;
  sqrt := PrimFloat.sqrt;
  hypot := F64.hypot;
  max := F64.max;
  min := F64.min;
  isFinite := PrimFloat.is_finite
}.

(** *** Exact arithmetic *)

Module Exact.

Definition ltb (a b : R) : bool := if Rlt_dec a b then true else false.
Definition eqb (a b : R) : bool := if Req_dec_T a b then true else false.
Definition hypot (a b : R) : R := R_sqrt.sqrt (a * a + b * b).

End Exact.

#[export] Instance R_Number : Number R := {
  ofQ := Q2R;
  add := Rplus;
  sub := Rminus;
  mul := Rmult;
  div := Rdiv;
  neg := Ropp;
  ltb := Exact.ltb;
  eqb := Exact.eqb;
  abs := Rabs;
  sqrt := R_sqrt.sqrt;
  hypot := Exact.hypot;
  max := Rmax;
  min := Rmin;
  isFinite := fun _ => true
}.

(** ** Data *)

Record Vec (T : Type) := mkVec { x : T; y : T }.
Arguments mkVec {T}.
Arguments x {T}.
Arguments y {T}.

(** [window.innerWidth] and [window.innerHeight], read afresh by every
    handler that needs them. *)
Record Window (T : Type) := mkWindow { innerWidth : T; innerHeight : T }.
Arguments mkWindow {T}.
Arguments innerWidth {T}.
Arguments innerHeight {T}.

Inductive GameState := positioning | ready | aiming | shooting | scored | missed.

(** A thrown JavaScript value: the [TypeError] of a property read on [null],
    or an [Error] with its message. *)
Inductive JsError := TypeError | Error (message : string).

(** The completion of a call that may throw, or of a promise that may be
    rejected. *)
Inductive Result (A : Type) := Ok (a : A) | Throw (e : JsError).
Arguments Ok {A}.
Arguments Throw {A}.

(** The [setTimeout] callbacks of [triggerAnimations]. *)
Inductive Timer := ClearAnimateScore | ClearAnimateNet.

(** The component's fields, followed by the part of the browser it talks to:
    the pending animation-frame callbacks (each of them is [loop]), the next
    handle [requestAnimationFrame] returns, the pending timers, the
    commentary calls in flight and the console.  The counters are
    non-negative integers; a confetti piece is represented by its [id], its
    random style strings being display-only. *)
Record World (T : Type) := mkWorld {
  gameState : GameState;
  score : nat;
  shots : nat;
  stagedVelocity : option (Vec T);
  ballPosition : Vec T;
  ballVelocity : Vec T;
  aimStartPos : option (Vec T);
  aimCurrentPos : option (Vec T);
  geminiMessage : string;
  isLoadingGemini : bool;
  animateScore : bool;
  animateNet : bool;
  confettiPieces : list nat;
  animationFrameId : option nat;
  wasAboveRim : bool;
  frames : list nat;
  nextFrame : nat;
  timers : list Timer;
  awaiting : list bool;
  console : list JsError
}.
Arguments mkWorld {T}.
Arguments gameState {T}.
Arguments score {T}.
Arguments shots {T}.
Arguments stagedVelocity {T}.
Arguments ballPosition {T}.
Arguments ballVelocity {T}.
Arguments aimStartPos {T}.
Arguments aimCurrentPos {T}.
Arguments geminiMessage {T}.
Arguments isLoadingGemini {T}.
Arguments animateScore {T}.
Arguments animateNet {T}.
Arguments confettiPieces {T}.
Arguments animationFrameId {T}.
Arguments wasAboveRim {T}.
Arguments frames {T}.
Arguments nextFrame {T}.
Arguments timers {T}.
Arguments awaiting {T}.
Arguments console {T}.

(** Field updates. *)
Section Setters.
Context {T : Type}.

Definition set_gameState (v : GameState) (s : World T) : World T :=
  mkWorld v (score s) (shots s) (stagedVelocity s) (ballPosition s)
    (ballVelocity s) (aimStartPos s) (aimCurrentPos s) (geminiMessage s)
    (isLoadingGemini s) (animateScore s) (animateNet s) (confettiPieces s)
    (animationFrameId s) (wasAboveRim s) (frames s) (nextFrame s) (timers s)
    (awaiting s) (console s).

Definition set_score (v : nat) (s : World T) : World T :=
  mkWorld (gameState s) v (shots s) (stagedVelocity s) (ballPosition s)
    (ballVelocity s) (aimStartPos s) (aimCurrentPos s) (geminiMessage s)
    (isLoadingGemini s) (animateScore s) (animateNet s) (confettiPieces s)
    (animationFrameId s) (wasAboveRim s) (frames s) (nextFrame s) (timers s)
    (awaiting s) (console s).

Definition set_shots (v : nat) (s : World T) : World T :=
  mkWorld (gameState s) (score s) v (stagedVelocity s) (ballPosition s)
    (ballVelocity s) (aimStartPos s) (aimCurrentPos s) (geminiMessage s)
    (isLoadingGemini s) (animateScore s) (animateNet s) (confettiPieces s)
    (animationFrameId s) (wasAboveRim s) (frames s) (nextFrame s) (timers s)
    (awaiting s) (console s).

Definition set_stagedVelocity (v : option (Vec T)) (s : World T) : World T :=
  mkWorld (gameState s) (score s) (shots s) v (ballPosition s)
    (ballVelocity s) (aimStartPos s) (aimCurrentPos s) (geminiMessage s)
    (isLoadingGemini s) (animateScore s) (animateNet s) (confettiPieces s)
    (animationFrameId s) (wasAboveRim s) (frames s) (nextFrame s) (timers s)
    (awaiting s) (console s).

Definition set_ballPosition (v : Vec T) (s : World T) : World T :=
  mkWorld (gameState s) (score s) (shots s) (stagedVelocity s) v
    (ballVelocity s) (aimStartPos s) (aimCurrentPos s) (geminiMessage s)
    (isLoadingGemini s) (animateScore s) (animateNet s) (confettiPieces s)
    (animationFrameId s) (wasAboveRim s) (frames s) (nextFrame s) (timers s)
    (awaiting s) (console s).

Definition set_ballVelocity (v : Vec T) (s : World T) : World T :=
  mkWorld (gameState s) (score s) (shots s) (stagedVelocity s)
    (ballPosition s) v (aimStartPos s) (aimCurrentPos s) (geminiMessage s)
    (isLoadingGemini s) (animateScore s) (animateNet s) (confettiPieces s)
    (animationFrameId s) (wasAboveRim s) (frames s) (nextFrame s) (timers s)
    (awaiting s) (console s).

Definition set_aimStartPos (v : option (Vec T)) (s : World T) : World T :=
  mkWorld (gameState s) (score s) (shots s) (stagedVelocity s)
    (ballPosition s) (ballVelocity s) v (aimCurrentPos s) (geminiMessage s)
    (isLoadingGemini s) (animateScore s) (animateNet s) (confettiPieces s)
    (animationFrameId s) (wasAboveRim s) (frames s) (nextFrame s) (timers s)
    (awaiting s) (console s).

Definition set_aimCurrentPos (v : option (Vec T)) (s : World T) : World T :=
  mkWorld (gameState s) (score s) (shots s) (stagedVelocity s)
    (ballPosition s) (ballVelocity s) (aimStartPos s) v (geminiMessage s)
    (isLoadingGemini s) (animateScore s) (animateNet s) (confettiPieces s)
    (animationFrameId s) (wasAboveRim s) (frames s) (nextFrame s) (timers s)
    (awaiting s) (console s).

Definition set_geminiMessage (v : string) (s : World T) : World T :=
  mkWorld (gameState s) (score s) (shots s) (stagedVelocity s)
    (ballPosition s) (ballVelocity s) (aimStartPos s) (aimCurrentPos s) v
    (isLoadingGemini s) (animateScore s) (animateNet s) (confettiPieces s)
    (animationFrameId s) (wasAboveRim s) (frames s) (nextFrame s) (timers s)
    (awaiting s) (console s).

Definition set_isLoadingGemini (v : bool) (s : World T) : World T :=
  mkWorld (gameState s) (score s) (shots s) (stagedVelocity s)
    (ballPosition s) (ballVelocity s) (aimStartPos s) (aimCurrentPos s)
    (geminiMessage s) v (animateScore s) (animateNet s) (confettiPieces s)
    (animationFrameId s) (wasAboveRim s) (frames s) (nextFrame s) (timers s)
    (awaiting s) (console s).

Definition set_animateScore (v : bool) (s : World T) : World T :=
  mkWorld (gameState s) (score s) (shots s) (stagedVelocity s)
    (ballPosition s) (ballVelocity s) (aimStartPos s) (aimCurrentPos s)
    (geminiMessage s) (isLoadingGemini s) v (animateNet s) (confettiPieces s)
    (animationFrameId s) (wasAboveRim s) (frames s) (nextFrame s) (timers s)
    (awaiting s) (console s).

Definition set_animateNet (v : bool) (s : World T) : World T :=
  mkWorld (gameState s) (score s) (shots s) (stagedVelocity s)
    (ballPosition s) (ballVelocity s) (aimStartPos s) (aimCurrentPos s)
    (geminiMessage s) (isLoadingGemini s) (animateScore s) v
    (confettiPieces s) (animationFrameId s) (wasAboveRim s) (frames s)
    (nextFrame s) (timers s) (awaiting s) (console s).

Definition set_confettiPieces (v : list nat) (s : World T) : World T :=
  mkWorld (gameState s) (score s) (shots s) (stagedVelocity s)
    (ballPosition s) (ballVelocity s) (aimStartPos s) (aimCurrentPos s)
    (geminiMessage s) (isLoadingGemini s) (animateScore s) (animateNet s) v
    (animationFrameId s) (wasAboveRim s) (frames s) (nextFrame s) (timers s)
    (awaiting s) (console s).

Definition set_animationFrameId (v : option nat) (s : World T) : World T :=
  mkWorld (gameState s) (score s) (shots s) (stagedVelocity s)
    (ballPosition s) (ballVelocity s) (aimStartPos s) (aimCurrentPos s)
    (geminiMessage s) (isLoadingGemini s) (animateScore s) (animateNet s)
    (confettiPieces s) v (wasAboveRim s) (frames s) (nextFrame s) (timers s)
    (awaiting s) (console s).

Definition set_wasAboveRim (v : bool) (s : World T) : World T :=
  mkWorld (gameState s) (score s) (shots s) (stagedVelocity s)
    (ballPosition s) (ballVelocity s) (aimStartPos s) (aimCurrentPos s)
    (geminiMessage s) (isLoadingGemini s) (animateScore s) (animateNet s)
    (confettiPieces s) (animationFrameId s) v (frames s) (nextFrame s)
    (timers s) (awaiting s) (console s).

Definition set_frames (v : list nat) (s : World T) : World T :=
  mkWorld (gameState s) (score s) (shots s) (stagedVelocity s)
    (ballPosition s) (ballVelocity s) (aimStartPos s) (aimCurrentPos s)
    (geminiMessage s) (isLoadingGemini s) (animateScore s) (animateNet s)
    (confettiPieces s) (animationFrameId s) (wasAboveRim s) v (nextFrame s)
    (timers s) (awaiting s) (console s).

Definition set_nextFrame (v : nat) (s : World T) : World T :=
  mkWorld (gameState s) (score s) (shots s) (stagedVelocity s)
    (ballPosition s) (ballVelocity s) (aimStartPos s) (aimCurrentPos s)
    (geminiMessage s) (isLoadingGemini s) (animateScore s) (animateNet s)
    (confettiPieces s) (animationFrameId s) (wasAboveRim s) (frames s) v
    (timers s) (awaiting s) (console s).

Definition set_timers (v : list Timer) (s : World T) : World T :=
  mkWorld (gameState s) (score s) (shots s) (stagedVelocity s)
    (ballPosition s) (ballVelocity s) (aimStartPos s) (aimCurrentPos s)
    (geminiMessage s) (isLoadingGemini s) (animateScore s) (animateNet s)
    (confettiPieces s) (animationFrameId s) (wasAboveRim s) (frames s)
    (nextFrame s) v (awaiting s) (console s).

Definition set_awaiting (v : list bool) (s : World T) : World T :=
  mkWorld (gameState s) (score s) (shots s) (stagedVelocity s)
    (ballPosition s) (ballVelocity s) (aimStartPos s) (aimCurrentPos s)
    (geminiMessage s) (isLoadingGemini s) (animateScore s) (animateNet s)
    (confettiPieces s) (animationFrameId s) (wasAboveRim s) (frames s)
    (nextFrame s) (timers s) v (console s).

Definition set_console (v : list JsError) (s : World T) : World T :=
  mkWorld (gameState s) (score s) (shots s) (stagedVelocity s)
    (ballPosition s) (ballVelocity s) (aimStartPos s) (aimCurrentPos s)
    (geminiMessage s) (isLoadingGemini s) (animateScore s) (animateNet s)
    (confettiPieces s) (animationFrameId s) (wasAboveRim s) (frames s)
    (nextFrame s) (timers s) (awaiting s) v.

End Setters.

(** ** The commentary service ([GeminiService]) *)

Module Gemini.
Local Open Scope string_scope.

(** The client object; nothing of it is read but its existence. *)
Record GoogleGenAI := mkGoogleGenAI { apiKey : string }.

Record GeminiService := mkGeminiService {
  ai : option GoogleGenAI;
  error : option string
}.

(** [ai.models.generateContent]: from the model name and the prompt to the
    response text, or a rejection. *)
Definition Remote := string -> string -> Result string.

(** A string is truthy unless it is empty. *)
Definition truthy (s : string) : bool := negb (String.eqb s "").

Definition truthy_opt (o : option string) : bool :=
  match o with Some s => truthy s | None => false end.

(** The constructor, from [process.env.API_KEY]. *)
Definition create (API_KEY : option string) : GeminiService :=
  if truthy_opt API_KEY then
    mkGeminiService
      (match API_KEY with Some k => Some (mkGoogleGenAI k) | None => None end) None
  else
    mkGeminiService None
      (Some "API key not configured. Please set the API_KEY environment variable.").

Definition quote : string := String (ascii_of_nat 34) EmptyString.

Definition prompt (didScore : bool) : string :=
  if didScore then
    "Generate a short, hype, and creative compliment for someone who just scored a basket. Be like a cool sports commentator. Max 15 words."
  else
    "Generate a short, funny, and slightly teasing " ++ quote ++ "trash talk" ++ quote
    ++ " comment for someone who just missed a basketball shot. Keep it lighthearted. Max 15 words.".

(** [getShotReaction]: how the returned promise settles, and what the call
    writes to the console. *)
Definition getShotReaction (svc : GeminiService) (generateContent : Remote)
    (didScore : bool) : Result string * list JsError :=
  if truthy_opt (error svc) || (match ai svc with None => true | Some _ => false end) then
    (Ok (match error svc with Some e => e | None => "Gemini Service not initialized." end), [])
  else
    match generateContent "gemini-2.5-flash" (prompt didScore) with
    | Ok text => (Ok text, [])
    | Throw e => (Throw (Error "Failed to get a reaction from Gemini."), [e])
    end.

End Gemini.

(** ** The game *)

Section Game.
Context {T : Type} {N : Number T}.
Local Open Scope js_scope.

(** *** Constants and court geometry *)

Definition GRAVITY : T := ofQ 0.4.
Definition BOUNCE_DAMPENING : T := ofQ 0.7.
Definition AIM_POWER_FACTOR : T := ofQ 0.15.
Definition MAX_AIM_POWER : T := ofQ 120.

Definition BALL_RADIUS : T := ofQ 20.
Definition COURT_PADDING : T := ofQ 10.
Definition HOOP_POS : Vec T := mkVec (ofQ 100) (ofQ 200).
Definition BACKBOARD_width : T := ofQ 6.
Definition BACKBOARD_height : T := ofQ 100.
Definition RIM_width : T := ofQ 60.
Definition RIM_height : T := ofQ 20.

Definition RIM_Y_POS : T := y HOOP_POS + BACKBOARD_height / ofQ 2.
Definition RIM_X_START (w : Window T) : T := innerWidth w - x HOOP_POS - RIM_width.
Definition RIM_X_END (w : Window T) : T := innerWidth w - x HOOP_POS.
Definition BACKBOARD_X (w : Window T) : T := innerWidth w - x HOOP_POS.

(** *** The physics step

    [updateGameState] works on two locals, [pos] and [vel]; they are a
    [Ball] here, and each block of the method is a function on it. *)

Record Ball := mkBall { pos : Vec T; vel : Vec T }.

(** [vel.y += GRAVITY; pos.x += vel.x; pos.y += vel.y] *)
Definition integrate (b : Ball) : Ball :=
  let vy := y (vel b) + GRAVITY in
  mkBall (mkVec (x (pos b) + x (vel b)) (y (pos b) + vy)) (mkVec (x (vel b)) vy).

Definition hitsFloor (w : Window T) (b : Ball) : bool :=
  y (pos b) + BALL_RADIUS >? innerHeight w.

Definition floorBounce (w : Window T) (b : Ball) : Ball :=
  if hitsFloor w b then
    mkBall (mkVec (x (pos b)) (innerHeight w - BALL_RADIUS))
           (mkVec (x (vel b) * BOUNCE_DAMPENING) (y (vel b) * - BOUNCE_DAMPENING))
  else b.

Definition hitsWall (w : Window T) (b : Ball) : bool :=
  (x (pos b) + BALL_RADIUS >? innerWidth w) || (x (pos b) - BALL_RADIUS <? ofQ 0).

Definition wallBounce (w : Window T) (b : Ball) : Ball :=
  if hitsWall w b then
    mkBall (mkVec (if x (pos b) - BALL_RADIUS <? ofQ 0 then BALL_RADIUS
                   else innerWidth w - BALL_RADIUS)
                  (y (pos b)))
           (mkVec (x (vel b) * ofQ (-1)) (y (vel b)))
  else b.

(** The condition of the score branch, [wasAbove] being [this.wasAboveRim]
    as just updated. *)
Definition scoreTest (w : Window T) (b : Ball) (wasAbove : bool) : bool :=
  let isMovingDown := y (vel b) >? ofQ 0 in
  wasAbove && isMovingDown &&
  (y (pos b) >? RIM_Y_POS) && (y (pos b) <? RIM_Y_POS + ofQ 20) &&
  (x (pos b) >? RIM_X_START w) && (x (pos b) <? RIM_X_END w).

Definition hitsBackboard (w : Window T) (b : Ball) : bool :=
  (x (pos b) + BALL_RADIUS >? BACKBOARD_X w) &&
  (y (pos b) >? y HOOP_POS) && (y (pos b) <? y HOOP_POS + BACKBOARD_height).

Definition backboardBounce (w : Window T) (b : Ball) : Ball :=
  if hitsBackboard w b then
    mkBall (mkVec (BACKBOARD_X w - BALL_RADIUS) (y (pos b)))
           (mkVec (x (vel b) * - BOUNCE_DAMPENING) (y (vel b)))
  else b.

Definition hitsRimPost (w : Window T) (b : Ball) : bool :=
  let distToRimFront := hypot (x (pos b) - RIM_X_START w) (y (pos b) - RIM_Y_POS) in
  let distToRimBack := hypot (x (pos b) - RIM_X_END w) (y (pos b) - RIM_Y_POS) in
  (distToRimFront <? BALL_RADIUS) || (distToRimBack <? BALL_RADIUS).

Definition rimPostBounce (w : Window T) (b : Ball) : Ball :=
  if hitsRimPost w b then
    mkBall (pos b) (mkVec (x (vel b) * BOUNCE_DAMPENING) (y (vel b) * - BOUNCE_DAMPENING))
  else b.

Definition missTest (w : Window T) (b : Ball) : bool :=
  (y (pos b) >? innerHeight w + ofQ 100) ||
  ((abs (x (vel b)) <? ofQ 0.1) && (abs (y (vel b)) <? ofQ 0.1) &&
   (y (pos b) >? innerHeight w - BALL_RADIUS - ofQ 1)).

(** The ball at the score test: after integration, floor and wall bounce. *)
Definition atScoreTest (w : Window T) (b : Ball) : Ball :=
  wallBounce w (floorBounce w (integrate b)).

(** The ball at the miss test: after backboard and rim-post bounce as well. *)
Definition atMissTest (w : Window T) (b : Ball) : Ball :=
  rimPostBounce w (backboardBounce w (atScoreTest w b)).

(** [this.wasAboveRim] after [if (pos.y < RIM_Y_POS()) this.wasAboveRim = true]. *)
Definition trackAboveRim (w : Window T) (b : Ball) (wasAbove : bool) : bool :=
  if y (pos (atScoreTest w b)) <? RIM_Y_POS then true else wasAbove.

(** How one call of [updateGameState] ends: in [handleScore], in
    [handleMiss], or by committing [pos] and [vel]. *)
Inductive Outcome := Continue | Scored | Missed.

(** The physics of [updateGameState] as a function of the ball and the
    flag: the new flag, the outcome, and the values of the locals [pos] and
    [vel] where the method returns. *)
Definition step (w : Window T) (b : Ball) (wasAbove : bool) : Ball * bool * Outcome :=
  let wasAbove' := trackAboveRim w b wasAbove in
  if scoreTest w (atScoreTest w b) wasAbove' then (atScoreTest w b, wasAbove', Scored)
  else if missTest w (atMissTest w b) then (atMissTest w b, wasAbove', Missed)
  else (atMissTest w b, wasAbove', Continue).

(** The four bounces of a step, by name: the ball after one of them, and
    whether it takes place. *)
Inductive Bounce := Floor | Wall | Backboard | RimPost.

Definition bounce (k : Bounce) (w : Window T) (b : Ball) : Ball :=
  match k with
  | Floor => floorBounce w b
  | Wall => wallBounce w b
  | Backboard => backboardBounce w b
  | RimPost => rimPostBounce w b
  end.

Definition fires (k : Bounce) (w : Window T) (b : Ball) : bool :=
  match k with
  | Floor => hitsFloor w b
  | Wall => hitsWall w b
  | Backboard => hitsBackboard w b
  | RimPost => hitsRimPost w b
  end.

(** *** The browser: animation frames, timers *)

(** Handles are positive and never reused. *)
Definition requestAnimationFrame (s : World T) : nat * World T :=
  (nextFrame s, set_nextFrame (S (nextFrame s)) (set_frames (frames s ++ [nextFrame s]) s)).

Definition cancelAnimationFrame (h : nat) (s : World T) : World T :=
  set_frames (remove Nat.eq_dec h (frames s)) s.

Definition setTimeout (t : Timer) (s : World T) : World T :=
  set_timers (timers s ++ [t]) s.

Definition dropNth {A : Type} (i : nat) (l : list A) : list A :=
  firstn i l ++ skipn (S i) l.

(** *** Commentary *)

Definition FALLBACK : string := "Oops, Gemini is taking a timeout.".

(** [fetchGeminiReaction] up to its [await]: the call is in flight. *)
Definition fetchGeminiReaction (didScore : bool) (s : World T) : World T :=
  let s := set_isLoadingGemini true s in
  let s := set_geminiMessage "" s in
  set_awaiting (awaiting s ++ [didScore]) s.

(** [fetchGeminiReaction] from its [await] on, [r] being how the promise of
    [getShotReaction] settled: the [try], the [catch] and the [finally].
    The result is how the promise of [fetchGeminiReaction] itself settles. *)
Definition fetchGeminiReaction_resume (r : Result string) (s : World T) : Result (World T) :=
  let s :=
    match r with
    | Ok message => set_geminiMessage message s
    | Throw e =>
        let s := set_console (console s ++ [e]) s in
        set_geminiMessage FALLBACK s
    end in
  Ok (set_isLoadingGemini false s).

(** *** Scoring, missing, resetting *)

Definition triggerConfetti (s : World T) : World T :=
  set_confettiPieces (seq 0 50) s.

Definition triggerAnimations (s : World T) : World T :=
  let s := set_animateScore true s in
  let s := setTimeout ClearAnimateScore s in
  let s := set_animateNet true s in
  let s := setTimeout ClearAnimateNet s in
  triggerConfetti s.

Definition handleScore (s : World T) : World T :=
  let s := set_gameState scored s in
  let s := set_score (score s + 1) s in
  let s := fetchGeminiReaction true s in
  triggerAnimations s.

Definition handleMiss (s : World T) : World T :=
  let s := set_gameState missed s in
  fetchGeminiReaction false s.

Definition resetShot (w : Window T) (s : World T) : World T :=
  let s := set_gameState positioning s in
  let s := set_stagedVelocity None s in
  let s := set_ballPosition (mkVec (ofQ 150) (innerHeight w - ofQ 150)) s in
  let s := set_ballVelocity (mkVec (ofQ 0) (ofQ 0)) s in
  let s := set_geminiMessage "" s in
  set_confettiPieces [] s.

(** *** The game loop *)

(** The locals [pos] and [vel] as [updateGameState] initialises them. *)
Definition ballOf (s : World T) : Ball := mkBall (ballPosition s) (ballVelocity s).

Definition updateGameState (w : Window T) (s : World T) : World T :=
  let '(b, wasAbove, outcome) := step w (ballOf s) (wasAboveRim s) in
  let s := set_wasAboveRim wasAbove s in
  match outcome with
  | Scored => handleScore s
  | Missed => handleMiss s
  | Continue => set_ballVelocity (vel b) (set_ballPosition (pos b) s)
  end.

(** The callback [loop] of [startGameLoop]. *)
Definition loop (w : Window T) (s : World T) : World T :=
  let s := updateGameState w s in
  match gameState s with
  | shooting =>
      let '(h, s) := requestAnimationFrame s in
      set_animationFrameId (Some h) s
  | _ => s
  end.

Definition startGameLoop (s : World T) : World T :=
  let s :=
    match animationFrameId s with
    | Some h => if Nat.eqb h 0 then s else cancelAnimationFrame h s
    | None => s
    end in
  let '(h, s) := requestAnimationFrame s in
  set_animationFrameId (Some h) s.

Definition fireShot (s : World T) : World T :=
  match stagedVelocity s with
  | None => s
  | Some velocity =>
      let s := set_shots (shots s + 1) s in
      let s := set_ballVelocity velocity s in
      let s := set_stagedVelocity None s in
      let s := set_gameState shooting s in
      let s := set_aimStartPos None s in
      let s := set_aimCurrentPos None s in
      let s := set_wasAboveRim false s in
      startGameLoop s
  end.

(** *** Input handlers

    A pointer event is the point [getClientPos] reads from it. *)

Definition toLowerAscii (c : ascii) : ascii :=
  let n := nat_of_ascii c in
  if ((65 <=? n) && (n <=? 90))%nat then ascii_of_nat (n + 32) else c.

(** [String.prototype.toLowerCase]; only the letters A-Z matter for the
    comparison with ['x'] and ['c']. *)
Fixpoint toLowerCase (k : string) : string :=
  match k with
  | EmptyString => EmptyString
  | String c k' => String (toLowerAscii c) (toLowerCase k')
  end.

Definition isAiming (s : World T) : bool :=
  match gameState s with aiming => true | _ => false end.

Definition onAimStart (p : Vec T) (s : World T) : World T :=
  let s := set_gameState aiming s in
  let s := set_aimStartPos (Some p) s in
  set_aimCurrentPos (Some p) s.

Definition onAiming (p : Vec T) (s : World T) : World T :=
  set_aimCurrentPos (Some p) s.

(** [onAimEnd] reads [aimStartPos()!] and [aimCurrentPos()!]: on [null] the
    property read throws. *)
Definition onAimEnd (s : World T) : Result (World T) :=
  match aimStartPos s, aimCurrentPos s with
  | Some start, Some end_ =>
      let dx := x end_ - x start in
      let dy := y end_ - y start in
      let dist := sqrt (dx * dx + dy * dy) in
      if dist =? ofQ 0 then Ok (set_gameState ready s)
      else
        let '(dx, dy) :=
          if dist >? MAX_AIM_POWER then
            let ratio := MAX_AIM_POWER / dist in
            (dx * ratio, dy * ratio)
          else (dx, dy) in
        let s := set_stagedVelocity
                   (Some (mkVec (dx * AIM_POWER_FACTOR) (dy * AIM_POWER_FACTOR))) s in
        Ok (set_gameState ready s)
  | _, _ => Throw TypeError
  end.

Definition onKeyDown (w : Window T) (key : string) (s : World T) : World T :=
  match gameState s with
  | positioning =>
      let pos := ballPosition s in
      let moveSpeed := ofQ 10 in
      let pos :=
        if String.eqb key "ArrowUp" then mkVec (x pos) (y pos - moveSpeed)
        else if String.eqb key "ArrowDown" then mkVec (x pos) (y pos + moveSpeed)
        else if String.eqb key "ArrowLeft" then mkVec (x pos - moveSpeed) (y pos)
        else if String.eqb key "ArrowRight" then mkVec (x pos + moveSpeed) (y pos)
        else pos in
      let constrainedX :=
        max BALL_RADIUS (min (x pos) (innerWidth w / ofQ 2 - BALL_RADIUS)) in
      let constrainedY :=
        max BALL_RADIUS (min (y pos) (innerHeight w - BALL_RADIUS)) in
      set_ballPosition (mkVec constrainedX constrainedY) s
  | ready =>
      if String.eqb (toLowerCase key) "x" || String.eqb (toLowerCase key) "c"
      then fireShot s else s
  | _ => s
  end.

Definition onPointerDown (p : Vec T) (s : World T) : World T :=
  match gameState s with
  | positioning | ready => onAimStart p (set_stagedVelocity None s)
  | _ => s
  end.

Definition onPointerMove (p : Vec T) (s : World T) : World T :=
  if isAiming s then onAiming p s else s.

Definition onPointerUp (p : Vec T) (s : World T) : Result (World T) :=
  if isAiming s then onAimEnd s else Ok s.

(** *** Computed signals of the shadow

    [ballShadowOpacity], and the [scale] that [ballShadowTransform] puts
    into its CSS string (the string itself is not modelled). *)

Definition ballShadowOpacity (w : Window T) (s : World T) : T :=
  let yPercent := y (ballPosition s) / innerHeight w in
  max (ofQ 0) (ofQ 0.4 - yPercent * ofQ 0.4).

Definition ballShadowScale (w : Window T) (s : World T) : T :=
  let yPercent := y (ballPosition s) / innerHeight w in
  ofQ 1.2 - yPercent * ofQ 0.6.

(** *** The component as a state machine *)

Definition initial (w : Window T) : World T :=
  mkWorld positioning 0 0 None (mkVec (ofQ 150) (innerHeight w - ofQ 150))
    (mkVec (ofQ 0) (ofQ 0)) None None "" false false false [] None false
    [] 1 [] [] [].

(** Modelled from the spec: the template that binds the component's
    handlers ([app.component.html]) is not among the sources.  Following
    the specification's input interface, the pointer events arrive through
    [onPointerDown], [onPointerMove] and [onPointerUp], and the fire and
    reset inputs call [fireShot] and [resetShot], in any state.  The other
    events are the host's key listener, an animation frame, a timer, and
    the settling of a commentary call ([generateContent] being the remote
    model's answer to it). *)
Inductive Event :=
| KeyDown (key : string)
| PointerDown (p : Vec T)
| PointerMove (p : Vec T)
| PointerUp (p : Vec T)
| FireRequested
| ResetRequested
| AnimationFrame (h : nat)
| TimerFired (i : nat)
| ReactionSettled (i : nat) (generateContent : Gemini.Remote).

Definition runTimer (t : Timer) (s : World T) : World T :=
  match t with
  | ClearAnimateScore => set_animateScore false s
  | ClearAnimateNet => set_animateNet false s
  end.

Definition dispatch (geminiService : Gemini.GeminiService) (w : Window T)
    (e : Event) (s : World T) : Result (World T) :=
  match e with
  | KeyDown key => Ok (onKeyDown w key s)
  | PointerDown p => Ok (onPointerDown p s)
  | PointerMove p => Ok (onPointerMove p s)
  | PointerUp p => onPointerUp p s
  | FireRequested => Ok (fireShot s)
  | ResetRequested => Ok (resetShot w s)
  | AnimationFrame h =>
      (* a pending callback leaves the queue and runs; any other handle has
         been cancelled or has run already *)
      if existsb (Nat.eqb h) (frames s)
      then Ok (loop w (cancelAnimationFrame h s)) else Ok s
  | TimerFired i =>
      match nth_error (timers s) i with
      | Some t => Ok (runTimer t (set_timers (dropNth i (timers s)) s))
      | None => Ok s
      end
  | ReactionSettled i generateContent =>
      match nth_error (awaiting s) i with
      | Some didScore =>
          let '(r, logged) := Gemini.getShotReaction geminiService generateContent didScore in
          let s := set_console (console s ++ logged) s in
          fetchGeminiReaction_resume r (set_awaiting (dropNth i (awaiting s)) s)
      | None => Ok s
      end
  end.

End Game.

(** ** Vocabulary of the properties *)

Section Vocabulary.
Context {T : Type} {N : Number T}.
Local Open Scope js_scope.

(** The miss condition in the words of the specification, on the ball as
    it is after integration and all bounce handling. *)
Definition fallenOrSettled (w : Window T) (b : @Ball T) : Prop :=
  (y (pos b) >? innerHeight w + ofQ 100) = true \/
  ((abs (x (vel b)) <? ofQ 0.1) = true /\
   (abs (y (vel b)) <? ofQ 0.1) = true /\
   (y (pos b) >? innerHeight w - BALL_RADIUS - ofQ 1) = true).

(** The states the component can be in: from [initial], by any events, the
    window being whatever it is at each of them. *)
Inductive reachable (svc : Gemini.GeminiService) : World T -> Prop :=
| reachable_initial (w : Window T) : reachable svc (initial w)
| reachable_dispatch (w : Window T) (e : Event) (s s' : World T) :
    reachable svc s -> dispatch svc w e s = Ok s' -> reachable svc s'.

(** At most one animation frame is pending; it is the one whose handle the
    component holds, and handles to come are larger. *)
Definition schedulerOk (s : World T) : Prop :=
  nextFrame s <> 0%nat /\
  (frames s = [] \/
   exists h, frames s = [h] /\ animationFrameId s = Some h /\
             h <> 0%nat /\ (h < nextFrame s)%nat).

(** While aiming, nothing is staged and both drag points are recorded. *)
Definition aimingOk (s : World T) : Prop :=
  gameState s = aiming ->
  stagedVelocity s = None /\ aimStartPos s <> None /\ aimCurrentPos s <> None.

Definition invariant (s : World T) : Prop := schedulerOk s /\ aimingOk s.


(** A sequence of events in one window, stopping at the first throw. *)
Fixpoint run (svc : Gemini.GeminiService) (w : Window T) (es : list Event)
    (s : World T) : Result (World T) :=
  match es with
  | [] => Ok s
  | e :: es' =>
      match dispatch svc w e s with
      | Ok s' => run svc w es' s'
      | Throw err => Throw err
      end
  end.

(** The state a run from [initial] ends in. *)
Definition stateAfter (svc : Gemini.GeminiService) (w : Window T) (es : list Event) : World T :=
  match run svc w es (initial w) with
  | Ok s => s
  | Throw _ => initial w
  end.

(** While a shot is in flight nothing is staged and its next frame is
    pending. *)
Definition loopAlive (s : World T) : Prop :=
  gameState s = shooting ->
  stagedVelocity s = None /\ exists h, frames s = [h].

(** There are never more baskets than shots, and fewer while a frame is
    pending. *)
Definition countersOk (s : World T) : Prop :=
  (score s <= shots s)%nat /\ (frames s <> [] -> (score s < shots s)%nat).

(** Each indicator that is on has something pending that will turn it off. *)
Definition indicatorsOk (s : World T) : Prop :=
  (isLoadingGemini s = true -> awaiting s <> []) /\
  (animateScore s = true -> In ClearAnimateScore (timers s)) /\
  (animateNet s = true -> In ClearAnimateNet (timers s)).

Definition bookkeepingOk (s : World T) : Prop :=
  loopAlive s /\ countersOk s /\ indicatorsOk s.

(** The key test of the [ready] branch of [onKeyDown]. *)
Definition isFireKey (key : string) : bool :=
  (String.eqb (toLowerCase key) "x" || String.eqb (toLowerCase key) "c")%bool.

(** A shot in flight whose ball the physics step maps to itself. *)
Definition atRest (w : Window T) (s : World T) : Prop :=
  gameState s = shooting /\
  step w (ballOf s) (wasAboveRim s) = (ballOf s, wasAboveRim s, Continue).

End Vocabulary.

Section ExactVocabulary.
Local Open Scope R_scope.

(** The length of the drag from [a] to [c], and the length of a velocity. *)
Definition dragLength (a c : Vec R) : R :=
  R_sqrt.sqrt ((x c - x a) * (x c - x a) + (y c - y a) * (y c - y a)).

Definition speed (v : Vec R) : R := hypot (x v) (y v).


(** A ball lying on the floor at [x0], bouncing at the speed at which
    gravity and the floor's dampening cancel. *)
Definition restingBall (w : Window R) (x0 : R) : @Ball R :=
  mkBall (mkVec x0 (innerHeight w - 20)) (mkVec 0 (- (14 / 85))).

End ExactVocabulary.

(** ** Concrete courts, balls and states *)

Section OnFloats.
Local Open Scope float_scope.

Definition court : Window float := mkWindow 1000 800.
Definition ballInBand : @Ball float := mkBall (mkVec 870 255) (mkVec 0 1).
Definition ballOnRimLine : @Ball float := mkBall (mkVec 870 249.5) (mkVec 0 0.1).
Definition ballOvershooting : @Ball float := mkBall (mkVec 870 250) (mkVec 0 25).
Definition ballRisingSlowly : @Ball float := mkBall (mkVec 870 260) (mkVec 0 (-0.2)).
Definition ballRising : @Ball float := mkBall (mkVec 870 260) (mkVec 0 (-5)).
Definition ballSettling : @Ball float := mkBall (mkVec 500 780) (mkVec 0 (-0.3)).
Definition ballAtWall : @Ball float := mkBall (mkVec 990 300) (mkVec 3 1).

Definition svc0 : Gemini.GeminiService := Gemini.create (Some "key"%string).
Definition modelDown : Gemini.Remote := fun _ _ => Throw (Error "503"%string).
Definition click : list (@Event float) := [PointerDown (mkVec 300 500)].
Definition drag : list (@Event float) :=
  [PointerDown (mkVec 300 500); PointerMove (mkVec 360 420); PointerUp (mkVec 360 420)].

(** Aiming, just after the pointer went down. *)
Definition clicked : World float := stateAfter svc0 court click.
(** A shot fired, reset while its next frame was pending, and aimed again. *)
Definition reAimed : World float :=
  stateAfter svc0 court (drag ++ [FireRequested; ResetRequested] ++ drag).
(** Ready to fire, the flag still set from an earlier shot. *)
Definition flagged : World float := set_wasAboveRim true (stateAfter svc0 court drag).
(** A commentary call in flight. *)
Definition waiting : World float := fetchGeminiReaction true (initial court).

(** Ready to fire after a drag. *)
Definition aimed : World float := stateAfter svc0 court drag.
(** A shot in flight, its first frame pending. *)
Definition inFlight : World float := stateAfter svc0 court (drag ++ [FireRequested]).
(** A feeble shot that has come to rest after 122 frames: missed, the
    commentary call in flight. *)
Definition feebleShot : list (@Event float) :=
  [PointerDown (mkVec 300 500); PointerMove (mkVec 301 500); PointerUp (mkVec 301 500);
   FireRequested] ++ map AnimationFrame (seq 1 122).
Definition justMissed : World float := stateAfter svc0 court feebleShot.
(** A shot straight up, 274 frames on: the ball lies on the floor. *)
Definition straightUp : list (@Event float) :=
  [PointerDown (mkVec 300 500); PointerMove (mkVec 300 440); PointerUp (mkVec 300 440);
   FireRequested] ++ map AnimationFrame (seq 1 274).
Definition lyingOnTheFloor : World float := stateAfter svc0 court straightUp.

End OnFloats.

Section OnReals.
Local Open Scope R_scope.

Definition courtR : Window R := mkWindow 1000 800.
Definition ballOnFloorR : @Ball R := mkBall (mkVec 500 790) (mkVec 3 4).
Definition ballAtWallR : @Ball R := mkBall (mkVec 990 300) (mkVec 3 1).
(** Aiming, with a drag from the origin to (600, 800), or none at all. *)
Definition draggedR : World R :=
  onAiming (mkVec 600 800) (onAimStart (mkVec 0 0) (initial courtR)).
Definition clickedR : World R := onAimStart (mkVec 10 10) (initial courtR).

(** A ball in the bottom right corner, moving into it. *)
Definition ballInCornerR : @Ball R := mkBall (mkVec 995 795) (mkVec 5 5).

End OnReals.

(** * Properties *)

(** ** The two number systems are lawful *)

(** The literals of the program denote the expected binary64 values. *)
Example float_literals :
  (ofQ 0.4 = 0.4 /\ ofQ 0.7 = 0.7 /\ ofQ 0.15 = 0.15 /\ ofQ 0.1 = 0.1 /\
   ofQ 120 = 120 /\ ofQ (-1) = -1 /\ ofQ 0 = 0)%float.
Proof. repeat split; vm_compute; reflexivity. Qed.

Module F64Laws.

Lemma SFcompare_refl_not_Lt (f : spec_float) : SFcompare f f <> Some Lt.
Proof.
  destruct f as [s | s | | s m e]; simpl; try destruct s; try discriminate;
    rewrite Z.compare_refl;
    change (Pos.compare_cont Eq m m) with (Pos.compare m m);
    rewrite Pos.compare_refl; discriminate.
Qed.

Lemma SFltb_irrefl (f : spec_float) : SFltb f f = false.
Proof.
  unfold SFltb. pose proof (SFcompare_refl_not_Lt f) as H.
  destruct (SFcompare f f) as [[ | | ] | ]; congruence.
Qed.

Lemma SFltb_asym (f g : spec_float) : SFltb f g = true -> SFltb g f = false.
Proof.
  unfold SFltb.
  destruct f as [s1 | s1 | | s1 m1 e1], g as [s2 | s2 | | s2 m2 e2]; simpl;
    try destruct s1; try destruct s2; try reflexivity; try discriminate;
    rewrite (Z.compare_antisym e1 e2);
    destruct (e1 ?= e2)%Z; simpl; try reflexivity; try discriminate;
    change (Pos.compare_cont Eq m2 m1) with (Pos.compare m2 m1);
    change (Pos.compare_cont Eq m1 m2) with (Pos.compare m1 m2);
    rewrite (Pos.compare_antisym m1 m2);
    destruct (m1 ?= m2)%positive; simpl; try reflexivity; discriminate.
Qed.

Lemma finite_cases (a : float) :
  is_finite a = true ->
  (exists s, Prim2SF a = S754_zero s) \/ (exists s m e, Prim2SF a = S754_finite s m e).
Proof.
  unfold is_finite, is_nan, is_infinity. intros H.
  rewrite !FloatAxioms.eqb_spec, abs_spec in H.
  destruct (Prim2SF a) as [s | s | | s m e] eqn:E.
  - left. now exists s.
  - destruct s; vm_compute in H; discriminate.
  - vm_compute in H. discriminate.
  - right. now exists s, m, e.
Qed.

Lemma sub_diag (a : float) : is_finite a = true -> PrimFloat.sub a a = 0%float.
Proof.
  intros H. apply Prim2SF_inj. rewrite sub_spec.
  destruct (finite_cases a H) as [[s E] | [s [m [e E]]]]; rewrite E.
  - destruct s; reflexivity.
  - unfold SF64sub, SFsub. rewrite Z.sub_diag. reflexivity.
Qed.

End F64Laws.

#[export] Instance float_NumberLaws : NumberLaws float.
Proof.
  split.
  - intros a. simpl. rewrite ltb_spec. apply F64Laws.SFltb_irrefl.
  - intros a b. simpl. rewrite !ltb_spec. apply F64Laws.SFltb_asym.
  - intros a H. simpl in *. now rewrite F64Laws.sub_diag.
  - vm_compute. reflexivity.
Qed.

Module ExactLaws.

Lemma ltb_lt (a b : R) : Exact.ltb a b = true <-> (a < b)%R.
Proof. unfold Exact.ltb. destruct (Rlt_dec a b); split; intros; (easy || lra). Qed.

Lemma ltb_ge (a b : R) : Exact.ltb a b = false <-> (b <= a)%R.
Proof. unfold Exact.ltb. destruct (Rlt_dec a b); split; intros; (easy || lra). Qed.

Lemma eqb_eq (a b : R) : Exact.eqb a b = true <-> a = b.
Proof. unfold Exact.eqb. destruct (Req_dec_T a b); split; intros; easy. Qed.

End ExactLaws.

#[export] Instance R_NumberLaws : NumberLaws R.
Proof.
  split.
  - intros a. apply ExactLaws.ltb_ge. lra.
  - intros a b H. apply ExactLaws.ltb_lt in H. apply ExactLaws.ltb_ge. lra.
  - intros a _. simpl. unfold Q2R. simpl. lra.
  - simpl. apply ExactLaws.eqb_eq. unfold Q2R. simpl.
    replace (0 * / 1 * (0 * / 1) + 0 * / 1 * (0 * / 1))%R with 0%R by lra.
    rewrite sqrt_0. lra.
Qed.

(** ** The physics step: control flow *)

Section ControlFlow.
Context {T : Type} {N : Number T}.
Local Open Scope js_scope.

(** The outcome of [step], branch by branch. *)
Lemma step_outcome (w : Window T) (b : @Ball T) (wasAbove : bool) :
  snd (step w b wasAbove) =
  if scoreTest w (atScoreTest w b) (trackAboveRim w b wasAbove) then Scored
  else if missTest w (atMissTest w b) then Missed else Continue.
Proof.
  unfold step.
  destruct (scoreTest w (atScoreTest w b) (trackAboveRim w b wasAbove)); [reflexivity | ].
  destruct (missTest w (atMissTest w b)); reflexivity.
Qed.

Lemma step_scored_iff (w : Window T) (b : @Ball T) (wasAbove : bool) :
  snd (step w b wasAbove) = Scored <->
  scoreTest w (atScoreTest w b) (trackAboveRim w b wasAbove) = true.
Proof.
  rewrite step_outcome.
  destruct (scoreTest w (atScoreTest w b) (trackAboveRim w b wasAbove)).
  - split; reflexivity.
  - destruct (missTest w (atMissTest w b)); split; discriminate.
Qed.

Lemma trackAboveRim_true (w : Window T) (b : @Ball T) : trackAboveRim w b true = true.
Proof. unfold trackAboveRim. destruct (_ <? _); reflexivity. Qed.

Lemma missTest_spec (w : Window T) (b : @Ball T) :
  missTest w b = true <-> fallenOrSettled w b.
Proof.
  unfold missTest, fallenOrSettled.
  rewrite orb_true_iff, !andb_true_iff. tauto.
Qed.

(** C9.  When the score test does not fire, the step ends in [Missed]
    exactly when the ball, after integration and bounce handling, is more
    than 100 below the court or has settled (both speed components below
    0.1 in magnitude and [pos.y > courtHeight - radius - 1]); otherwise it
    ends in [Continue]. *)
Theorem miss_exactly_when_fallen_or_settled
    (w : Window T) (b : @Ball T) (wasAbove : bool) :
  scoreTest w (atScoreTest w b) (trackAboveRim w b wasAbove) = false ->
  (snd (step w b wasAbove) = Missed <-> fallenOrSettled w (atMissTest w b)) /\
  (snd (step w b wasAbove) = Continue <-> ~ fallenOrSettled w (atMissTest w b)).
Proof.
  intros Hs. rewrite step_outcome, Hs, <- missTest_spec.
  destruct (missTest w (atMissTest w b)); split; split; intros H;
    try reflexivity; try discriminate; congruence.
Qed.

(** The score branch needs a ball that moves down. *)
Lemma scoreTest_needs_descent `{!NumberLaws T}
    (w : Window T) (b : @Ball T) (wasAbove : bool) :
  (y (vel b) <? ofQ 0) = true -> scoreTest w b wasAbove = false.
Proof.
  intros Hup. apply ltb_asym in Hup. unfold scoreTest. rewrite Hup.
  now rewrite andb_false_r.
Qed.

(** Without a floor bounce, [vel.y] at the score test is the entry value
    plus gravity. *)
Lemma vel_y_atScoreTest (w : Window T) (b : @Ball T) :
  hitsFloor w (integrate b) = false ->
  y (vel (atScoreTest w b)) = y (vel b) + GRAVITY.
Proof.
  intros H. unfold atScoreTest, floorBounce, wallBounce. rewrite H.
  destruct (hitsWall w (integrate b)); reflexivity.
Qed.

(** In terms of the ball on entry: it does not score in a step in which it
    stays off the floor and gravity does not yet turn it around. *)
Lemma no_score_when_rising_fast `{!NumberLaws T}
    (w : Window T) (b : @Ball T) (wasAbove : bool) :
  hitsFloor w (integrate b) = false ->
  (y (vel b) + GRAVITY <? ofQ 0) = true ->
  snd (step w b wasAbove) <> Scored.
Proof.
  intros Hf Hup Hsc. apply step_scored_iff in Hsc.
  rewrite scoreTest_needs_descent in Hsc; [discriminate | ].
  now rewrite vel_y_atScoreTest.
Qed.

(** C3 (as amended).  A ball that is still moving up at the score test,
    i.e. whose [vel.y] is negative after gravity has been added and the
    floor bounce applied, does not score, whatever the flag and the
    position are. *)
Theorem no_score_while_moving_up `{!NumberLaws T}
    (w : Window T) (b : @Ball T) (wasAbove : bool) :
  (y (vel (atScoreTest w b)) <? ofQ 0) = true ->
  snd (step w b wasAbove) <> Scored.
Proof.
  intros Hup Hsc. apply step_scored_iff in Hsc.
  rewrite scoreTest_needs_descent in Hsc; [discriminate | exact Hup].
Qed.

(** C1 (as amended).  With the flag set on entry, the ball moving down at
    the score test and its [pos.x] strictly between the rim's bounds, the
    step scores exactly when [pos.y] is strictly inside the band
    [(rimY, rimY + 20)]; on either edge, [rimY] or [rimY + 20], the score
    rule does not fire. *)
Theorem score_band_is_open `{!NumberLaws T} (w : Window T) (b : @Ball T) :
  (y (vel (atScoreTest w b)) >? ofQ 0) = true ->
  (x (pos (atScoreTest w b)) >? RIM_X_START w) = true ->
  (x (pos (atScoreTest w b)) <? RIM_X_END w) = true ->
  (snd (step w b true) = Scored <->
     (y (pos (atScoreTest w b)) >? RIM_Y_POS) = true /\
     (y (pos (atScoreTest w b)) <? RIM_Y_POS + ofQ 20) = true) /\
  (y (pos (atScoreTest w b)) = RIM_Y_POS -> snd (step w b true) <> Scored) /\
  (y (pos (atScoreTest w b)) = RIM_Y_POS + ofQ 20 -> snd (step w b true) <> Scored).
Proof.
  intros Hv Hx1 Hx2.
  assert (Hiff : snd (step w b true) = Scored <->
     (y (pos (atScoreTest w b)) >? RIM_Y_POS) = true /\
     (y (pos (atScoreTest w b)) <? RIM_Y_POS + ofQ 20) = true).
  { rewrite step_scored_iff, trackAboveRim_true. unfold scoreTest.
    rewrite Hv, Hx1, Hx2, !andb_true_r. simpl. apply andb_true_iff. }
  split; [exact Hiff | split]; intros E Hsc; apply Hiff in Hsc;
    destruct Hsc as [H1 H2]; rewrite E in *.
  - rewrite ltb_irrefl in H1. discriminate.
  - rewrite ltb_irrefl in H2. discriminate.
Qed.

End ControlFlow.

(** ** The controller *)

Section Controller.
Context {T : Type} {N : Number T}.
Local Open Scope js_scope.

Lemma updateGameState_cases (w : Window T) (s : World T) :
  updateGameState w s =
  match snd (step w (ballOf s) (wasAboveRim s)) with
  | Scored => handleScore (set_wasAboveRim (trackAboveRim w (ballOf s) (wasAboveRim s)) s)
  | Missed => handleMiss (set_wasAboveRim (trackAboveRim w (ballOf s) (wasAboveRim s)) s)
  | Continue =>
      set_ballVelocity (vel (atMissTest w (ballOf s)))
        (set_ballPosition (pos (atMissTest w (ballOf s)))
           (set_wasAboveRim (trackAboveRim w (ballOf s) (wasAboveRim s)) s))
  end.
Proof.
  unfold updateGameState, step.
  destruct (scoreTest w (atScoreTest w (ballOf s)) _); [reflexivity | ].
  destruct (missTest w (atMissTest w (ballOf s))); reflexivity.
Qed.

(** [loop] only adds the scheduling of the next frame to [updateGameState]. *)
Lemma loop_ball (w : Window T) (s : World T) :
  ballPosition (loop w s) = ballPosition (updateGameState w s) /\
  ballVelocity (loop w s) = ballVelocity (updateGameState w s) /\
  gameState (loop w s) = gameState (updateGameState w s) /\
  wasAboveRim (loop w s) = wasAboveRim (updateGameState w s).
Proof.
  unfold loop. destruct (gameState (updateGameState w s)) eqn:E;
    simpl; rewrite ?E; auto.
Qed.

(** C10.  A tick that ends in [handleScore] or [handleMiss] leaves the
    stored ball position and velocity as they were before the tick; the
    integrated and bounce-adjusted values are stored only when the tick
    ends in [Continue].  This holds for [updateGameState] and for the
    frame callback [loop] around it. *)
Theorem ball_committed_only_on_continue (w : Window T) (s : World T) :
  match snd (step w (ballOf s) (wasAboveRim s)) with
  | Continue =>
      ballPosition (updateGameState w s) = pos (atMissTest w (ballOf s)) /\
      ballVelocity (updateGameState w s) = vel (atMissTest w (ballOf s)) /\
      gameState (updateGameState w s) = gameState s
  | Scored =>
      ballPosition (updateGameState w s) = ballPosition s /\
      ballVelocity (updateGameState w s) = ballVelocity s /\
      gameState (updateGameState w s) = scored
  | Missed =>
      ballPosition (updateGameState w s) = ballPosition s /\
      ballVelocity (updateGameState w s) = ballVelocity s /\
      gameState (updateGameState w s) = missed
  end /\
  ballPosition (loop w s) = ballPosition (updateGameState w s) /\
  ballVelocity (loop w s) = ballVelocity (updateGameState w s).
Proof.
  split; [ | split; apply loop_ball].
  rewrite updateGameState_cases.
  destruct (snd (step w (ballOf s) (wasAboveRim s))); simpl; auto.
Qed.

Lemma schedulerOk_frame (s s' : World T) :
  frames s' = frames s -> nextFrame s' = nextFrame s ->
  animationFrameId s' = animationFrameId s -> schedulerOk s -> schedulerOk s'.
Proof. unfold schedulerOk. intros -> -> ->. auto. Qed.

Lemma updateGameState_scheduler (w : Window T) (s : World T) :
  frames (updateGameState w s) = frames s /\
  nextFrame (updateGameState w s) = nextFrame s /\
  animationFrameId (updateGameState w s) = animationFrameId s.
Proof.
  rewrite updateGameState_cases.
  destruct (snd (step w (ballOf s) (wasAboveRim s))); simpl; auto.
Qed.

Lemma updateGameState_aim (w : Window T) (s : World T) :
  stagedVelocity (updateGameState w s) = stagedVelocity s /\
  aimStartPos (updateGameState w s) = aimStartPos s /\
  aimCurrentPos (updateGameState w s) = aimCurrentPos s /\
  (gameState (updateGameState w s) = gameState s \/
   gameState (updateGameState w s) = scored \/
   gameState (updateGameState w s) = missed).
Proof.
  rewrite updateGameState_cases.
  destruct (snd (step w (ballOf s) (wasAboveRim s))); simpl; repeat split; auto.
Qed.

Lemma remove_only (h : nat) (l : list nat) :
  l = [] \/ l = [h] -> remove Nat.eq_dec h l = [].
Proof.
  intros [-> | ->]; simpl; [reflexivity | ].
  destruct (Nat.eq_dec h h); [reflexivity | contradiction].
Qed.

Lemma schedulerOk_request (s : World T) :
  nextFrame s <> 0%nat -> frames s = [] ->
  schedulerOk (set_animationFrameId (Some (fst (requestAnimationFrame s)))
                 (snd (requestAnimationFrame s))).
Proof.
  intros Hn Hf. unfold schedulerOk. simpl. rewrite Hf. split; [lia | ].
  right. exists (nextFrame s). repeat split; auto.
Qed.

Lemma startGameLoop_frames (s : World T) :
  schedulerOk s ->
  frames (startGameLoop s) = [nextFrame s] /\
  animationFrameId (startGameLoop s) = Some (nextFrame s) /\
  nextFrame (startGameLoop s) = S (nextFrame s).
Proof.
  intros [Hn [Hf | [h [Hf [Hid [Hh _]]]]]]; unfold startGameLoop.
  - destruct (animationFrameId s) as [h | ]; [destruct (Nat.eqb h 0) | ];
      simpl; rewrite ?Hf; simpl; rewrite ?Hf; auto.
  - rewrite Hid. apply Nat.eqb_neq in Hh. rewrite Hh. simpl. rewrite Hf. simpl.
    destruct (Nat.eq_dec h h); [auto | contradiction].
Qed.

Lemma fireShot_staged (s : World T) (v : Vec T) :
  stagedVelocity s = Some v ->
  fireShot s =
  startGameLoop
    (set_wasAboveRim false (set_aimCurrentPos None (set_aimStartPos None
      (set_gameState shooting (set_stagedVelocity None
        (set_ballVelocity v (set_shots (shots s + 1)%nat s))))))).
Proof. unfold fireShot. intros ->. reflexivity. Qed.

Lemma fireShot_none (s : World T) : stagedVelocity s = None -> fireShot s = s.
Proof. unfold fireShot. intros ->. reflexivity. Qed.

Lemma startGameLoop_fields (s : World T) :
  gameState (startGameLoop s) = gameState s /\
  stagedVelocity (startGameLoop s) = stagedVelocity s /\
  wasAboveRim (startGameLoop s) = wasAboveRim s /\
  shots (startGameLoop s) = shots s /\
  ballVelocity (startGameLoop s) = ballVelocity s /\
  ballPosition (startGameLoop s) = ballPosition s /\
  aimStartPos (startGameLoop s) = aimStartPos s /\
  aimCurrentPos (startGameLoop s) = aimCurrentPos s /\
  score (startGameLoop s) = score s.
Proof.
  unfold startGameLoop.
  destruct (animationFrameId s) as [h | ]; [destruct (Nat.eqb h 0) | ];
    simpl; repeat split.
Qed.

Lemma aimingOk_not_aiming (s : World T) : gameState s <> aiming -> aimingOk s.
Proof. unfold aimingOk. intros H E. contradiction. Qed.

Lemma fireShot_invariant (s : World T) : invariant s -> invariant (fireShot s).
Proof.
  intros [Hs Ha]. destruct (stagedVelocity s) as [v | ] eqn:E.
  - rewrite (fireShot_staged s v E).
    match goal with |- invariant (startGameLoop ?s0) => remember s0 as s1 eqn:E1 end.
    assert (Hn1 : nextFrame s1 = nextFrame s) by (subst s1; reflexivity).
    assert (Hs1 : schedulerOk s1)
      by (subst s1; apply (schedulerOk_frame s); auto).
    destruct (startGameLoop_frames s1 Hs1) as [Hf [Hid Hn]].
    destruct (startGameLoop_fields s1) as [Hg _].
    split.
    + unfold schedulerOk. rewrite Hf, Hid, Hn. split; [lia | ].
      right. exists (nextFrame s1). repeat split; auto.
      rewrite Hn1. apply Hs.
    + apply aimingOk_not_aiming. rewrite Hg. subst s1. discriminate.
  - now rewrite fireShot_none.
Qed.

Lemma loop_invariant (w : Window T) (s : World T) :
  frames s = [] -> invariant s -> invariant (loop w s).
Proof.
  intros Hf [Hs Ha].
  destruct (updateGameState_scheduler w s) as [Uf [Un Ui]].
  destruct (updateGameState_aim w s) as [Us [Ua [Uc Ug]]].
  assert (Hu : aimingOk (updateGameState w s)).
  { unfold aimingOk. rewrite Us, Ua, Uc. intros E. apply Ha.
    destruct Ug as [<- | [G | G]]; [exact E | | ]; rewrite G in E; discriminate. }
  unfold loop. destruct (gameState (updateGameState w s)) eqn:G;
    try solve [split; [apply (schedulerOk_frame s); auto | exact Hu]].
  split.
  - apply schedulerOk_request; [rewrite Un; apply Hs | now rewrite Uf].
  - apply aimingOk_not_aiming. simpl. rewrite G. discriminate.
Qed.

Lemma cancel_pending_frame (h : nat) (s : World T) :
  schedulerOk s -> existsb (Nat.eqb h) (frames s) = true ->
  frames (cancelAnimationFrame h s) = [].
Proof.
  intros [_ [Hf | [h' [Hf _]]]] E; rewrite Hf in E; simpl in E; [discriminate | ].
  rewrite orb_false_r in E. apply Nat.eqb_eq in E. subst h'.
  unfold cancelAnimationFrame. simpl. apply remove_only. auto.
Qed.

Lemma onAimEnd_invariant (s s' : World T) :
  onAimEnd s = Ok s' -> invariant s -> invariant s'.
Proof.
  unfold onAimEnd. intros H [Hs Ha].
  destruct (aimStartPos s) as [a | ]; [ | discriminate].
  destruct (aimCurrentPos s) as [c | ]; [ | discriminate].
  destruct (_ =? _); [ | destruct (_ >? _)]; injection H as <-;
    (split; [apply (schedulerOk_frame s); auto
            | apply aimingOk_not_aiming; simpl; discriminate]).
Qed.

(** Every event preserves the invariant. *)
Lemma dispatch_invariant (svc : Gemini.GeminiService) (w : Window T)
    (e : Event) (s s' : World T) :
  dispatch svc w e s = Ok s' -> invariant s -> invariant s'.
Proof.
  destruct e as [key | p | p | p | | | h | i | i gen]; simpl; intros H I.
  - injection H as <-. unfold onKeyDown.
    destruct (gameState s) eqn:G; try exact I.
    destruct (_ || _); [apply fireShot_invariant | ]; exact I.
  - injection H as <-. unfold onPointerDown, onAimStart.
    destruct I as [Hs Ha].
    destruct (gameState s) eqn:G; try (split; assumption);
      (split; [apply (schedulerOk_frame s); auto
              | unfold aimingOk; simpl; intros _; repeat split; discriminate]).
  - injection H as <-. unfold onPointerMove, onAiming, isAiming.
    destruct I as [Hs Ha].
    destruct (gameState s) eqn:G; try (split; assumption).
    split; [apply (schedulerOk_frame s); auto | ].
    unfold aimingOk. simpl. intros _. destruct (Ha G) as [H1 [H2 _]].
    repeat split; auto. discriminate.
  - unfold onPointerUp in H. destruct (isAiming s).
    + eapply onAimEnd_invariant; eauto.
    + now injection H as <-.
  - injection H as <-. now apply fireShot_invariant.
  - injection H as <-. destruct I as [Hs Ha].
    split; [apply (schedulerOk_frame s); auto | ].
    apply aimingOk_not_aiming. simpl. discriminate.
  - destruct (existsb (Nat.eqb h) (frames s)) eqn:E; injection H as <-; [ | exact I].
    apply loop_invariant.
    + apply cancel_pending_frame; [apply I | exact E].
    + destruct I as [Hs Ha].
      pose proof (cancel_pending_frame h s Hs E) as Hf.
      split; [ | exact Ha].
      unfold schedulerOk. rewrite Hf. split; [apply Hs | now left].
  - destruct (nth_error (timers s) i) as [t | ]; injection H as <-; [ | exact I].
    destruct I as [Hs Ha].
    destruct t; (split; [apply (schedulerOk_frame s); auto | exact Ha]).
  - destruct (nth_error (awaiting s) i) as [d | ]; [ | now injection H as <-].
    destruct (Gemini.getShotReaction svc gen d) as [r logged].
    unfold fetchGeminiReaction_resume in H. injection H as <-.
    destruct I as [Hs Ha].
    destruct r; (split; [apply (schedulerOk_frame s); auto | exact Ha]).
Qed.

Lemma initial_invariant (w : Window T) : invariant (initial w).
Proof.
  split.
  - split; [simpl; lia | now left].
  - apply aimingOk_not_aiming. discriminate.
Qed.

Lemma reachable_invariant (svc : Gemini.GeminiService) (s : World T) :
  reachable svc s -> invariant s.
Proof.
  induction 1 as [w | w e s s' _ IH H].
  - apply initial_invariant.
  - exact (dispatch_invariant svc w e s s' H IH).
Qed.

(** *** The flag [wasAboveRim] *)

Lemma updateGameState_flag (w : Window T) (s : World T) :
  wasAboveRim (updateGameState w s) =
  (y (pos (atScoreTest w (ballOf s))) <? RIM_Y_POS) || wasAboveRim s.
Proof.
  rewrite updateGameState_cases. unfold trackAboveRim.
  destruct (snd (step w (ballOf s) (wasAboveRim s))); simpl;
    destruct (_ <? _); reflexivity.
Qed.

(** C4.  A tick never clears the flag and sets it whenever the ball, after
    integration and floor / wall bounce, is above the rim line
    ([pos.y < rimY]); and the only event after which a set flag is found
    cleared is a fire, from the tap binding or from the key handler in
    state [ready], that does launch a shot. *)
Theorem wasAboveRim_is_sticky :
  (forall (w : Window T) (s : World T),
     wasAboveRim (updateGameState w s) =
     (y (pos (atScoreTest w (ballOf s))) <? RIM_Y_POS) || wasAboveRim s) /\
  (forall (svc : Gemini.GeminiService) (w : Window T) (e : Event) (s s' : World T),
     dispatch svc w e s = Ok s' ->
     wasAboveRim s = true -> wasAboveRim s' = false ->
     (e = FireRequested \/ exists key, e = KeyDown key /\ gameState s = ready) /\
     stagedVelocity s <> None /\ s' = fireShot s /\
     gameState s' = shooting /\ shots s' = S (shots s)).
Proof.
  split; [exact updateGameState_flag | ].
  assert (Fire : forall s : World T,
            wasAboveRim s = true -> wasAboveRim (fireShot s) = false ->
            stagedVelocity s <> None /\ fireShot s = fireShot s /\
            gameState (fireShot s) = shooting /\ shots (fireShot s) = S (shots s)).
  { intros s Ht Hf. destruct (stagedVelocity s) as [v | ] eqn:E.
    - rewrite (fireShot_staged s v E).
      match goal with |- context [startGameLoop ?s0] =>
        destruct (startGameLoop_fields s0) as [Hg [_ [_ [Hsh _]]]] end.
      rewrite Hg, Hsh. simpl. repeat split; try discriminate. lia.
    - rewrite (fireShot_none s E) in Hf. congruence. }
  intros svc w e s s' H Ht Hf.
  destruct e as [key | p | p | p | | | h | i | i gen]; simpl in H.
  - injection H as <-. unfold onKeyDown in *.
    destruct (gameState s) eqn:G; simpl in Hf; try congruence.
    destruct (_ || _); [ | congruence].
    split; [right; exists key; auto | now apply Fire].
  - injection H as <-. unfold onPointerDown in Hf.
    destruct (gameState s); simpl in Hf; congruence.
  - injection H as <-. unfold onPointerMove in Hf.
    destruct (isAiming s); simpl in Hf; congruence.
  - unfold onPointerUp, onAimEnd in H.
    destruct (isAiming s); [ | injection H as <-; congruence].
    destruct (aimStartPos s); [ | discriminate].
    destruct (aimCurrentPos s); [ | discriminate].
    destruct (_ =? _); [ | destruct (_ >? _)]; injection H as <-;
      simpl in Hf; congruence.
  - injection H as <-. split; [now left | now apply Fire].
  - injection H as <-. simpl in Hf. congruence.
  - destruct (existsb (Nat.eqb h) (frames s)); injection H as <-; [ | congruence].
    destruct (loop_ball w (cancelAnimationFrame h s)) as [_ [_ [_ Hl]]].
    rewrite Hl, updateGameState_flag in Hf. simpl in Hf.
    rewrite Ht, orb_true_r in Hf. discriminate.
  - destruct (nth_error (timers s) i) as [t | ]; injection H as <-; [ | congruence].
    destruct t; simpl in Hf; congruence.
  - destruct (nth_error (awaiting s) i) as [d | ]; [ | injection H as <-; congruence].
    destruct (Gemini.getShotReaction svc gen d) as [r logged].
    unfold fetchGeminiReaction_resume in H. injection H as <-.
    destruct r; simpl in Hf; congruence.
Qed.

(** *** Firing *)

(** C7.  In every reachable state, a fire request with a staged velocity
    clears [wasAboveRim], adds one to the shot counter, makes the staged
    velocity the ball's velocity and clears it (and the drag points), and
    enters [shooting]; afterwards exactly one animation frame is pending,
    the one just requested: a frame still pending from before has been
    cancelled, its handle being older than the new one. *)
Theorem fire_starts_a_fresh_shot
    (svc : Gemini.GeminiService) (s : World T) (v : Vec T) :
  reachable svc s -> stagedVelocity s = Some v ->
  wasAboveRim (fireShot s) = false /\
  shots (fireShot s) = S (shots s) /\
  ballVelocity (fireShot s) = v /\
  stagedVelocity (fireShot s) = None /\
  aimStartPos (fireShot s) = None /\ aimCurrentPos (fireShot s) = None /\
  gameState (fireShot s) = shooting /\
  frames (fireShot s) = [nextFrame s] /\
  animationFrameId (fireShot s) = Some (nextFrame s) /\
  ~ In (nextFrame s) (frames s).
Proof.
  intros Hr E. destruct (reachable_invariant svc s Hr) as [Hs _].
  rewrite (fireShot_staged s v E).
  match goal with |- context [startGameLoop ?s0] => remember s0 as s1 eqn:E1 end.
  assert (Hs1 : schedulerOk s1) by (subst s1; apply (schedulerOk_frame s); auto).
  destruct (startGameLoop_frames s1 Hs1) as [Hf [Hid _]].
  destruct (startGameLoop_fields s1)
    as [Hg [Hst [Hw [Hsh [Hbv [_ [Has [Hac _]]]]]]]].
  rewrite Hg, Hst, Hw, Hsh, Hbv, Has, Hac, Hf, Hid. subst s1. simpl.
  repeat split; try reflexivity; try lia.
  destruct Hs as [_ [Hfr | [h [Hfr [_ [_ Hlt]]]]]]; rewrite Hfr; simpl; lia.
Qed.

(** *** Releasing without a drag *)

Lemma zero_drag_distance `{!NumberLaws T} (p : Vec T) :
  isFinite (x p) = true -> isFinite (y p) = true ->
  (sqrt ((x p - x p) * (x p - x p) + (y p - y p) * (y p - y p)) =? ofQ 0) = true.
Proof. intros Hx Hy. rewrite !sub_diag by assumption. apply sqrt_zero. Qed.

(** C6.  In a reachable state that is aiming with the drag's start and
    current point equal (and finite), the pointer release leads to [ready]
    with nothing staged, and a fire request in that state, whether from the
    tap binding or from any key, changes nothing at all. *)
Theorem release_without_drag_is_inert `{!NumberLaws T}
    (svc : Gemini.GeminiService) (w : Window T) (s : World T) (p q : Vec T) :
  reachable svc s -> gameState s = aiming ->
  aimStartPos s = Some p -> aimCurrentPos s = Some p ->
  isFinite (x p) = true -> isFinite (y p) = true ->
  exists s1,
    dispatch svc w (PointerUp q) s = Ok s1 /\
    gameState s1 = ready /\ stagedVelocity s1 = None /\
    fireShot s1 = s1 /\
    dispatch svc w FireRequested s1 = Ok s1 /\
    (forall key, dispatch svc w (KeyDown key) s1 = Ok s1).
Proof.
  intros Hr G Hs Hc Hx Hy.
  destruct (reachable_invariant svc s Hr) as [_ Ha].
  destruct (Ha G) as [Hst _].
  exists (set_gameState ready s).
  assert (Hf : fireShot (set_gameState ready s) = set_gameState ready s)
    by (apply fireShot_none; exact Hst).
  split.
  - simpl. unfold onPointerUp, isAiming, onAimEnd. rewrite G, Hs, Hc.
    now rewrite (zero_drag_distance p Hx Hy).
  - repeat split; auto.
    + simpl. now rewrite Hf.
    + intros key. simpl. unfold onKeyDown. simpl.
      rewrite Hf. now destruct (_ || _).
Qed.

(** *** Commentary *)

(** C8.  When a commentary call in flight settles, [fetchGeminiReaction]
    itself never fails and the loading flag is then false, whether the call
    succeeded or was rejected; after a rejection the message is the fixed
    fallback string, after a success it is the text received.  A rejection
    by the remote model reaches the component as a rejection. *)
Theorem commentary_failure_falls_back
    (svc : Gemini.GeminiService) (w : Window T) (i : nat)
    (generateContent : Gemini.Remote) (didScore : bool) (s : World T) :
  nth_error (awaiting s) i = Some didScore ->
  exists s',
    dispatch svc w (ReactionSettled i generateContent) s = Ok s' /\
    isLoadingGemini s' = false /\
    match fst (Gemini.getShotReaction svc generateContent didScore) with
    | Throw _ => geminiMessage s' = FALLBACK
    | Ok message => geminiMessage s' = message
    end /\
    forall r : Result string,
      exists s'', fetchGeminiReaction_resume r (fetchGeminiReaction didScore s) = Ok s'' /\
        isLoadingGemini s'' = false /\
        match r with
        | Throw _ => geminiMessage s'' = FALLBACK
        | Ok message => geminiMessage s'' = message
        end.
Proof.
  intros E. simpl. rewrite E.
  destruct (Gemini.getShotReaction svc generateContent didScore) as [r logged].
  unfold fetchGeminiReaction_resume. eexists. split; [reflexivity | ].
  split; [reflexivity | ]. split.
  - destruct r; reflexivity.
  - intros r'. eexists. split; [reflexivity | ]. split; [reflexivity | ].
    destruct r'; reflexivity.
Qed.

Lemma run_reachable (svc : Gemini.GeminiService) (w : Window T) (es : list Event) :
  forall s s' : World T, reachable svc s -> run svc w es s = Ok s' -> reachable svc s'.
Proof.
  induction es as [ | e es IH]; simpl; intros s s' Hr H.
  - now injection H as <-.
  - destruct (dispatch svc w e s) as [s1 | err] eqn:E; [ | discriminate].
    apply (IH s1 s'); [ | exact H]. exact (reachable_dispatch svc w e s s1 Hr E).
Qed.

End Controller.

(** ** Magnitudes, in exact arithmetic *)

Section Magnitudes.
Local Open Scope R_scope.

Lemma BOUNCE_DAMPENING_exact : BOUNCE_DAMPENING = 7 / 10.
Proof. unfold BOUNCE_DAMPENING. simpl. unfold Q2R. simpl. lra. Qed.

Lemma MAX_AIM_POWER_exact : MAX_AIM_POWER = 120.
Proof. unfold MAX_AIM_POWER. simpl. unfold Q2R. simpl. lra. Qed.

Lemma AIM_POWER_FACTOR_exact : AIM_POWER_FACTOR = 15 / 100.
Proof. unfold AIM_POWER_FACTOR. simpl. unfold Q2R. simpl. lra. Qed.

Lemma Rabs_scale (d v : R) : 0 <= d -> Rabs (v * d) = d * Rabs v.
Proof. intros H. rewrite Rabs_mult, (Rabs_pos_eq d H). ring. Qed.

Lemma Rabs_scale_neg (d v : R) : 0 <= d -> Rabs (v * - d) = d * Rabs v.
Proof.
  intros H. replace (v * - d) with (- (v * d)) by ring.
  rewrite Rabs_Ropp. now apply Rabs_scale.
Qed.

Lemma damp_le (v : R) : 7 / 10 * Rabs v <= Rabs v.
Proof. pose proof (Rabs_pos v). lra. Qed.

Lemma damp_lt (v : R) : v <> 0 -> 7 / 10 * Rabs v < Rabs v.
Proof. intros H. pose proof (Rabs_pos_lt v H). lra. Qed.

(** C2 (as amended).  No bounce increases the magnitude of a velocity
    component.  The floor and the rim-post bounce scale both components,
    and the backboard bounce scales [vel.x], by [BOUNCE_DAMPENING] in
    magnitude; that factor lies strictly between 0 and 1, so a component
    that is not zero strictly loses magnitude.  The wall bounce negates
    [vel.x] and leaves its magnitude as it was. *)
Theorem bounces_never_speed_up (k : Bounce) (w : Window R) (b : @Ball R) :
  0 < BOUNCE_DAMPENING < 1 /\
  Rabs (x (vel (bounce k w b))) <= Rabs (x (vel b)) /\
  Rabs (y (vel (bounce k w b))) <= Rabs (y (vel b)) /\
  (fires k w b = true ->
   match k with
   | Floor | RimPost =>
       Rabs (x (vel (bounce k w b))) = BOUNCE_DAMPENING * Rabs (x (vel b)) /\
       Rabs (y (vel (bounce k w b))) = BOUNCE_DAMPENING * Rabs (y (vel b))
   | Backboard =>
       Rabs (x (vel (bounce k w b))) = BOUNCE_DAMPENING * Rabs (x (vel b)) /\
       y (vel (bounce k w b)) = y (vel b)
   | Wall =>
       Rabs (x (vel (bounce k w b))) = Rabs (x (vel b)) /\
       y (vel (bounce k w b)) = y (vel b)
   end) /\
  (fires k w b = true -> k <> Wall -> x (vel b) <> 0 ->
   Rabs (x (vel (bounce k w b))) < Rabs (x (vel b))) /\
  (fires k w b = true -> k = Floor \/ k = RimPost -> y (vel b) <> 0 ->
   Rabs (y (vel (bounce k w b))) < Rabs (y (vel b))).
Proof.
  rewrite BOUNCE_DAMPENING_exact.
  assert (Hd : 0 <= 7 / 10) by lra.
  pose proof (damp_le (x (vel b))) as Lx. pose proof (damp_le (y (vel b))) as Ly.
  pose proof (damp_lt (x (vel b))) as Sx. pose proof (damp_lt (y (vel b))) as Sy.
  assert (Hm : x (vel b) * Q2R (-1) = - x (vel b)) by (unfold Q2R; simpl; lra).
  split; [lra | ].
  destruct k; cbn [bounce fires];
    unfold floorBounce, wallBounce, backboardBounce, rimPostBounce;
    rewrite ?BOUNCE_DAMPENING_exact;
    match goal with |- context [if ?c then _ else _] => destruct c end;
    cbn [vel x y mul neg add ofQ R_Number];
    rewrite ?Hm, ?Rabs_Ropp, ?(Rabs_scale _ _ Hd), ?(Rabs_scale_neg _ _ Hd);
    repeat split; try lra; try discriminate;
    try (intros _ [E | E]; discriminate E);
    intros; auto; try tauto; congruence.
Qed.

Lemma dragLength_pos (a c : Vec R) : a <> c -> 0 < dragLength a c.
Proof.
  intros H. unfold dragLength. apply sqrt_lt_R0.
  destruct (Req_dec (x c) (x a)) as [Ex | Ex].
  - destruct (Req_dec (y c) (y a)) as [Ey | Ey].
    + exfalso. apply H. destruct a, c; simpl in *. congruence.
    + assert (0 < (y c - y a) * (y c - y a)) by (apply Rsqr_pos_lt; lra).
      pose proof (Rle_0_sqr (x c - x a)) as H1. unfold Rsqr in H1. lra.
  - assert (0 < (x c - x a) * (x c - x a)) by (apply Rsqr_pos_lt; lra).
    pose proof (Rle_0_sqr (y c - y a)) as H1. unfold Rsqr in H1. lra.
Qed.

Lemma speed_scale (dx dy k : R) :
  0 <= k -> Exact.hypot (dx * k) (dy * k) = R_sqrt.sqrt (dx * dx + dy * dy) * k.
Proof.
  intros Hk. unfold Exact.hypot.
  replace (dx * k * (dx * k) + dy * k * (dy * k)) with ((dx * dx + dy * dy) * (k * k)) by ring.
  rewrite sqrt_mult_alt.
  - now rewrite sqrt_square.
  - pose proof (Rle_0_sqr dx) as H1. pose proof (Rle_0_sqr dy) as H2. unfold Rsqr in *. lra.
Qed.

(** C5 (as amended).  In exact arithmetic, releasing a drag whose end
    differs from its start stages the drag vector rescaled to the length
    [min (dragLength, MAX_AIM_POWER)] and multiplied by [AIM_POWER_FACTOR]:
    a positive multiple of the drag vector, of length
    [min (dragLength, MAX_AIM_POWER) * AIM_POWER_FACTOR].  A drag of length
    1000, and any drag of length [MAX_AIM_POWER] or more, is staged with
    speed [MAX_AIM_POWER * AIM_POWER_FACTOR]. *)
Theorem staged_velocity_of_a_drag (s : World R) (a c : Vec R) :
  aimStartPos s = Some a -> aimCurrentPos s = Some c -> a <> c ->
  exists v,
    onAimEnd s = Ok (set_gameState ready (set_stagedVelocity (Some v) s)) /\
    x v = (x c - x a) * (Rmin (dragLength a c) MAX_AIM_POWER / dragLength a c) * AIM_POWER_FACTOR /\
    y v = (y c - y a) * (Rmin (dragLength a c) MAX_AIM_POWER / dragLength a c) * AIM_POWER_FACTOR /\
    0 < Rmin (dragLength a c) MAX_AIM_POWER / dragLength a c * AIM_POWER_FACTOR /\
    speed v = Rmin (dragLength a c) MAX_AIM_POWER * AIM_POWER_FACTOR /\
    (dragLength a c = 1000 -> speed v = MAX_AIM_POWER * AIM_POWER_FACTOR) /\
    (MAX_AIM_POWER <= dragLength a c -> speed v = MAX_AIM_POWER * AIM_POWER_FACTOR).
Proof.
  intros Hs Hc Hne.
  pose proof (dragLength_pos a c Hne) as Hd.
  unfold onAimEnd. rewrite Hs, Hc.
  cbn [sub mul add sqrt eqb ltb div ofQ R_Number].
  fold (dragLength a c).
  rewrite MAX_AIM_POWER_exact, AIM_POWER_FACTOR_exact.
  set (d := dragLength a c) in *.
  assert (E0 : Exact.eqb d (Q2R 0) = false).
  { unfold Exact.eqb. destruct (Req_dec_T d (Q2R 0)) as [E | E]; [ | reflexivity].
    unfold Q2R in E. simpl in E. lra. }
  rewrite E0.
  destruct (Exact.ltb 120 d) eqn:El.
  - apply ExactLaws.ltb_lt in El.
    assert (Hmin : Rmin d 120 = 120) by (apply Rmin_right; lra).
    rewrite Hmin.
    assert (Hk : 0 < 120 / d) by (apply Rdiv_lt_0_compat; lra).
    eexists. split; [reflexivity | ]. cbn [x y].
    assert (Hsp : speed {| x := (x c - x a) * (120 / d) * (15 / 100);
                           y := (y c - y a) * (120 / d) * (15 / 100) |} = 120 * (15 / 100)).
    { unfold speed. cbn [hypot R_Number x y].
      rewrite !Rmult_assoc, speed_scale by (apply Rmult_le_pos; lra).
      fold (dragLength a c). fold d. field. lra. }
    repeat split; try reflexivity; try (intros; exact Hsp); try exact Hsp.
    apply Rmult_lt_0_compat; lra.
  - apply ExactLaws.ltb_ge in El.
    assert (Hmin : Rmin d 120 = d) by (apply Rmin_left; lra).
    rewrite Hmin.
    eexists. split; [reflexivity | ]. cbn [x y].
    assert (Hsp : speed {| x := (x c - x a) * (15 / 100);
                           y := (y c - y a) * (15 / 100) |} = d * (15 / 100)).
    { unfold speed. cbn [hypot R_Number x y].
      rewrite speed_scale by lra. reflexivity. }
    repeat split; try (field; lra); try exact Hsp.
    + replace (d / d) with 1 by (field; lra). lra.
    + intros E. rewrite Hsp. lra.
    + intros E. rewrite Hsp. replace d with 120 by lra. reflexivity.
Qed.

End Magnitudes.

(** ** Concrete runs *)

Section FloatRuns.
Local Open Scope float_scope.
Local Open Scope js_scope.

(** *** The score band (C1) *)

(** A ball moving down inside the band, under the rim. *)
Lemma score_band_is_open_witness :
  (y (vel (atScoreTest court ballInBand)) >? ofQ 0) = true /\
  (x (pos (atScoreTest court ballInBand)) >? RIM_X_START court) = true /\
  (x (pos (atScoreTest court ballInBand)) <? RIM_X_END court) = true /\
  (snd (step court ballInBand true) = Scored <->
     (y (pos (atScoreTest court ballInBand)) >? RIM_Y_POS) = true /\
     (y (pos (atScoreTest court ballInBand)) <? RIM_Y_POS + ofQ 20) = true) /\
  (y (pos (atScoreTest court ballInBand)) = RIM_Y_POS ->
   snd (step court ballInBand true) <> Scored) /\
  (y (pos (atScoreTest court ballInBand)) = RIM_Y_POS + ofQ 20 ->
   snd (step court ballInBand true) <> Scored).
Proof.
  do 3 (split; [vm_compute; reflexivity | ]).
  apply (score_band_is_open court ballInBand); vm_compute; reflexivity.
Defined.

Example ballInBand_scores : snd (step court ballInBand true) = Scored.
Proof. vm_compute. reflexivity. Qed.

(** C1, counterexample.  In a 1000 x 800 window the rim line is [y = 250]
    and the rim spans [840 < x < 900].  With the flag set:
    - the ball that reaches [y = 250] exactly at the score test, moving
      down under the rim, does not score: the step continues;
    - the ball that enters the step at [y = 250] with [vel.y = 25], under
      the rim, has left the band when the test is made: the step
      continues. *)
Lemma score_band_counterexample :
  (y (pos (atScoreTest court ballOnRimLine)) = RIM_Y_POS /\
   (y (vel (atScoreTest court ballOnRimLine)) >? ofQ 0) = true /\
   (x (pos (atScoreTest court ballOnRimLine)) >? RIM_X_START court) = true /\
   (x (pos (atScoreTest court ballOnRimLine)) <? RIM_X_END court) = true /\
   snd (step court ballOnRimLine true) = Continue) /\
  (y (pos ballOvershooting) = RIM_Y_POS /\
   (y (vel ballOvershooting) >? ofQ 0) = true /\
   (x (pos ballOvershooting) >? RIM_X_START court) = true /\
   (x (pos ballOvershooting) <? RIM_X_END court) = true /\
   snd (step court ballOvershooting true) = Continue).
Proof. repeat split; vm_compute; reflexivity. Qed.

(** *** Moving up (C3) *)

(** C3, counterexample.  A ball that enters the step inside the band and
    under the rim with [vel.y = -0.2], the flag set, is moving down once
    gravity has been added ([-0.2 + 0.4 > 0]) and scores. *)
Lemma slowly_rising_ball_scores :
  (y (vel ballRisingSlowly) <? ofQ 0) = true /\
  (y (pos ballRisingSlowly) >? RIM_Y_POS) = true /\
  (y (pos ballRisingSlowly) <? RIM_Y_POS + ofQ 20) = true /\
  (x (pos ballRisingSlowly) >? RIM_X_START court) = true /\
  (x (pos ballRisingSlowly) <? RIM_X_END court) = true /\
  snd (step court ballRisingSlowly true) = Scored.
Proof. repeat split; vm_compute; reflexivity. Qed.

(** The same ball with [vel.y = -5] is still rising at the test. *)
Lemma no_score_while_moving_up_witness :
  (y (vel (atScoreTest court ballRising)) <? ofQ 0) = true /\
  snd (step court ballRising true) <> Scored.
Proof.
  split; [vm_compute; reflexivity | ].
  apply (no_score_while_moving_up court ballRising true). vm_compute. reflexivity.
Defined.

(** *** The miss test (C9) *)

(** A ball coming to rest on the floor. *)
Lemma miss_exactly_when_fallen_or_settled_witness :
  scoreTest court (atScoreTest court ballSettling)
    (trackAboveRim court ballSettling false) = false /\
  (snd (step court ballSettling false) = Missed <->
     fallenOrSettled court (atMissTest court ballSettling)) /\
  (snd (step court ballSettling false) = Continue <->
     ~ fallenOrSettled court (atMissTest court ballSettling)).
Proof.
  split; [vm_compute; reflexivity | ].
  apply (miss_exactly_when_fallen_or_settled court ballSettling false).
  vm_compute. reflexivity.
Defined.

Example ballSettling_is_missed : snd (step court ballSettling false) = Missed.
Proof. vm_compute. reflexivity. Qed.

(** *** The wall bounce (C2) *)

Lemma wall_bounce_float :
  fires Wall court ballAtWall = true /\
  (abs (x (vel (bounce Wall court ballAtWall))) <? abs (x (vel ballAtWall))) = false /\
  abs (x (vel (bounce Wall court ballAtWall))) = abs (x (vel ballAtWall)).
Proof. repeat split; vm_compute; reflexivity. Qed.

(** On binary64 the dampening is subject to rounding: the smallest positive
    number times 0.7 rounds back to itself. *)
Example tiniest_speed_is_not_damped :
  4.9406564584124654e-324 * BOUNCE_DAMPENING = 4.9406564584124654e-324.
Proof. vm_compute. reflexivity. Qed.

(** *** The controller *)

Lemma reAimed_reachable : reachable svc0 reAimed.
Proof.
  apply (run_reachable svc0 court (drag ++ [FireRequested; ResetRequested] ++ drag)
           (initial court)); [apply reachable_initial | vm_compute; reflexivity].
Qed.

Lemma clicked_reachable : reachable svc0 clicked.
Proof.
  apply (run_reachable svc0 court click (initial court));
    [apply reachable_initial | vm_compute; reflexivity].
Qed.

(** A shot is fired, the game is reset while the next frame of that shot
    is pending, and a new shot is aimed: firing it cancels the stale frame
    (handle 1) and leaves only the new one (handle 2). *)
Lemma fire_starts_a_fresh_shot_witness :
  reachable svc0 reAimed /\
  stagedVelocity reAimed = Some (mkVec 9 (-12)) /\
  wasAboveRim (fireShot reAimed) = false /\
  shots (fireShot reAimed) = S (shots reAimed) /\
  ballVelocity (fireShot reAimed) = mkVec 9 (-12) /\
  stagedVelocity (fireShot reAimed) = None /\
  aimStartPos (fireShot reAimed) = None /\ aimCurrentPos (fireShot reAimed) = None /\
  gameState (fireShot reAimed) = shooting /\
  frames (fireShot reAimed) = [nextFrame reAimed] /\
  animationFrameId (fireShot reAimed) = Some (nextFrame reAimed) /\
  ~ In (nextFrame reAimed) (frames reAimed).
Proof.
  split; [exact reAimed_reachable | ]. split; [vm_compute; reflexivity | ].
  apply (fire_starts_a_fresh_shot svc0 reAimed (mkVec 9 (-12)) reAimed_reachable).
  vm_compute. reflexivity.
Defined.

Example stale_frame_is_cancelled :
  frames reAimed = [1%nat] /\ frames (fireShot reAimed) = [2%nat].
Proof. split; vm_compute; reflexivity. Qed.

(** The pointer goes down and up at (300, 500). *)
Lemma release_without_drag_is_inert_witness :
  reachable svc0 clicked /\ gameState clicked = aiming /\
  aimStartPos clicked = Some (mkVec 300 500) /\
  aimCurrentPos clicked = Some (mkVec 300 500) /\
  isFinite (x (mkVec 300 500)) = true /\ isFinite (y (mkVec 300 500)) = true /\
  exists s1,
    dispatch svc0 court (PointerUp (mkVec 300 500)) clicked = Ok s1 /\
    gameState s1 = ready /\ stagedVelocity s1 = None /\
    fireShot s1 = s1 /\
    dispatch svc0 court FireRequested s1 = Ok s1 /\
    (forall key, dispatch svc0 court (KeyDown key) s1 = Ok s1).
Proof.
  split; [exact clicked_reachable | ]. do 5 (split; [vm_compute; reflexivity | ]).
  apply (release_without_drag_is_inert svc0 court clicked (mkVec 300 500)
           (mkVec 300 500) clicked_reachable);
    vm_compute; reflexivity.
Defined.

(** Firing with the flag still set from an earlier shot clears it. *)
Lemma wasAboveRim_is_sticky_witness :
  dispatch svc0 court FireRequested flagged = Ok (fireShot flagged) /\
  wasAboveRim flagged = true /\ wasAboveRim (fireShot flagged) = false /\
  (@FireRequested float = FireRequested \/
   exists key, @FireRequested float = KeyDown key /\ gameState flagged = ready) /\
  stagedVelocity flagged <> None /\ fireShot flagged = fireShot flagged /\
  gameState (fireShot flagged) = shooting /\
  shots (fireShot flagged) = S (shots flagged).
Proof.
  do 3 (split; [vm_compute; reflexivity | ]).
  apply (proj2 wasAboveRim_is_sticky svc0 court FireRequested flagged (fireShot flagged));
    vm_compute; reflexivity.
Defined.

(** The remote model is down while a commentary call is in flight. *)
Lemma commentary_failure_falls_back_witness :
  nth_error (awaiting waiting) 0 = Some true /\
  exists s',
    dispatch svc0 court (ReactionSettled 0 modelDown) waiting = Ok s' /\
    isLoadingGemini s' = false /\
    match fst (Gemini.getShotReaction svc0 modelDown true) with
    | Throw _ => geminiMessage s' = FALLBACK
    | Ok message => geminiMessage s' = message
    end /\
    forall r : Result string,
      exists s'', fetchGeminiReaction_resume r (fetchGeminiReaction true waiting) = Ok s'' /\
        isLoadingGemini s'' = false /\
        match r with
        | Throw _ => geminiMessage s'' = FALLBACK
        | Ok message => geminiMessage s'' = message
        end.
Proof.
  split; [vm_compute; reflexivity | ].
  apply (commentary_failure_falls_back svc0 court 0 modelDown true waiting).
  vm_compute. reflexivity.
Defined.

Example model_down_shows_fallback :
  match dispatch svc0 court (ReactionSettled 0 modelDown) waiting with
  | Ok s' => geminiMessage s' = FALLBACK /\ isLoadingGemini s' = false
  | Throw _ => False
  end.
Proof. split; vm_compute; reflexivity. Qed.

(** Without a key the service answers with its configuration message, and
    that is what is shown. *)
Example unconfigured_service_shows_its_message :
  match dispatch (Gemini.create None) court (ReactionSettled 0 modelDown) waiting with
  | Ok s' =>
      geminiMessage s' =
        "API key not configured. Please set the API_KEY environment variable."%string /\
      isLoadingGemini s' = false
  | Throw _ => False
  end.
Proof. split; vm_compute; reflexivity. Qed.

(** *** Releasing without a drag stages nothing (C5) *)

Lemma zero_drag_float :
  aimStartPos clicked = aimCurrentPos clicked /\
  onAimEnd clicked = Ok (set_gameState ready clicked) /\
  stagedVelocity (set_gameState ready clicked) = None.
Proof. repeat split; vm_compute; reflexivity. Qed.

(** A drag of length 1000 on binary64: the staged velocity and its length. *)
Example long_drag_float :
  onAimEnd (onAiming (mkVec 600 800) (onAimStart (mkVec 0 0) (initial court))) =
  Ok (set_gameState ready
        (set_stagedVelocity (Some (mkVec 10.799999999999999 14.399999999999999))
           (onAiming (mkVec 600 800) (onAimStart (mkVec 0 0) (initial court))))) /\
  hypot 10.799999999999999 14.399999999999999 = MAX_AIM_POWER * AIM_POWER_FACTOR.
Proof. split; vm_compute; reflexivity. Qed.

(** Another drag of length 1000 on binary64: here rounding leaves the
    length one unit in the last place below [MAX_AIM_POWER *
    AIM_POWER_FACTOR]. *)
Example long_drag_rounding_float :
  sqrt (280 * 280 + 960 * 960) = 1000 /\
  onAimEnd (onAiming (mkVec 280 960) (onAimStart (mkVec 0 0) (initial court))) =
  Ok (set_gameState ready
        (set_stagedVelocity (Some (mkVec 5.04 17.279999999999998))
           (onAiming (mkVec 280 960) (onAimStart (mkVec 0 0) (initial court))))) /\
  hypot 5.04 17.279999999999998 = 17.999999999999996 /\
  MAX_AIM_POWER * AIM_POWER_FACTOR = 18.
Proof. repeat split; vm_compute; reflexivity. Qed.

End FloatRuns.

Section ExactRuns.
Local Open Scope R_scope.

Lemma fires_Floor_R : fires Floor courtR ballOnFloorR = true.
Proof.
  cbn [fires]. unfold hitsFloor. apply ExactLaws.ltb_lt.
  unfold BALL_RADIUS. simpl. unfold Q2R. simpl. lra.
Qed.

Lemma fires_Wall_R : fires Wall courtR ballAtWallR = true.
Proof.
  cbn [fires]. unfold hitsWall. apply orb_true_iff. left. apply ExactLaws.ltb_lt.
  unfold BALL_RADIUS. simpl. unfold Q2R. simpl. lra.
Qed.

(** A floor bounce with [vel.x = 3]. *)
Lemma bounces_never_speed_up_witness :
  fires Floor courtR ballOnFloorR = true /\ Floor <> Wall /\
  x (vel ballOnFloorR) <> 0 /\
  Rabs (x (vel (bounce Floor courtR ballOnFloorR))) < Rabs (x (vel ballOnFloorR)).
Proof.
  assert (H3 : x (vel ballOnFloorR) <> 0) by (simpl; lra).
  assert (HF : Floor <> Wall) by discriminate.
  split; [exact fires_Floor_R | ]. split; [exact HF | ]. split; [exact H3 | ].
  exact (proj1 (proj2 (proj2 (proj2 (proj2
           (bounces_never_speed_up Floor courtR ballOnFloorR)))))
           fires_Floor_R HF H3).
Defined.

Lemma wall_bounce_R :
  fires Wall courtR ballAtWallR = true /\
  ~ Rabs (x (vel (bounce Wall courtR ballAtWallR))) < Rabs (x (vel ballAtWallR)).
Proof.
  split; [exact fires_Wall_R | ].
  pose proof fires_Wall_R as H. cbn [fires] in H.
  cbn [bounce]. unfold wallBounce. rewrite H. cbn [vel x mul ofQ R_Number ballAtWallR].
  replace (3 * Q2R (-1)) with (Ropp 3) by (unfold Q2R; simpl; lra).
  rewrite Rabs_Ropp. lra.
Qed.

(** C2, counterexample.  A ball at [x = 990] in a window 1000 wide, with
    [vel.x = 3], bounces off the right wall: [vel.x] becomes [-3], of the
    same magnitude, not a smaller one; on binary64 and in exact arithmetic
    alike. *)
Lemma wall_bounce_counterexample :
  (fires Wall court ballAtWall = true /\
   ltb (abs (x (vel (bounce Wall court ballAtWall)))) (abs (x (vel ballAtWall))) = false /\
   abs (x (vel (bounce Wall court ballAtWall))) = abs (x (vel ballAtWall))) /\
  (fires Wall courtR ballAtWallR = true /\
   ~ Rabs (x (vel (bounce Wall courtR ballAtWallR))) < Rabs (x (vel ballAtWallR))).
Proof. split; [exact wall_bounce_float | exact wall_bounce_R]. Qed.

Lemma dragged_length : dragLength (mkVec 0 0) (mkVec 600 800) = 1000.
Proof.
  unfold dragLength. cbn [x y].
  replace ((600 - 0) * (600 - 0) + (800 - 0) * (800 - 0)) with (1000 * 1000) by lra.
  apply sqrt_square. lra.
Qed.

(** A drag from the origin to (600, 800), of length 1000. *)
Lemma staged_velocity_of_a_drag_witness :
  aimStartPos draggedR = Some (mkVec 0 0) /\
  aimCurrentPos draggedR = Some (mkVec 600 800) /\
  mkVec 0 0 <> mkVec 600 800 /\
  dragLength (mkVec 0 0) (mkVec 600 800) = 1000 /\
  exists v,
    onAimEnd draggedR = Ok (set_gameState ready (set_stagedVelocity (Some v) draggedR)) /\
    speed v = MAX_AIM_POWER * AIM_POWER_FACTOR.
Proof.
  assert (Hne : mkVec 0 0 <> mkVec 600 800) by (intros E; injection E; lra).
  split; [reflexivity | ]. split; [reflexivity | ]. split; [exact Hne | ].
  split; [exact dragged_length | ].
  destruct (staged_velocity_of_a_drag draggedR (mkVec 0 0) (mkVec 600 800)
              eq_refl eq_refl Hne) as [v [H1 [_ [_ [_ [_ [H2 _]]]]]]].
  exists v. split; [exact H1 | exact (H2 dragged_length)].
Defined.

Lemma zero_drag_R :
  aimStartPos clickedR = aimCurrentPos clickedR /\
  onAimEnd clickedR = Ok (set_gameState ready clickedR) /\
  stagedVelocity (set_gameState ready clickedR) = None.
Proof.
  split; [reflexivity | ]. split; [ | reflexivity].
  unfold onAimEnd.
  cbn [aimStartPos aimCurrentPos clickedR onAimStart set_aimCurrentPos set_aimStartPos].
  rewrite (zero_drag_distance (mkVec 10 10)); reflexivity.
Qed.

(** C5, counterexample.  A drag that ends where it started stages no
    velocity at all: [onAimEnd] returns before the staging, and
    [stagedVelocity] stays [null]; on binary64 and in exact arithmetic
    alike. *)
Lemma zero_drag_counterexample :
  (aimStartPos clicked = aimCurrentPos clicked /\
   onAimEnd clicked = Ok (set_gameState ready clicked) /\
   stagedVelocity (set_gameState ready clicked) = None) /\
  (aimStartPos clickedR = aimCurrentPos clickedR /\
   onAimEnd clickedR = Ok (set_gameState ready clickedR) /\
   stagedVelocity (set_gameState ready clickedR) = None).
Proof. split; [exact zero_drag_float | exact zero_drag_R]. Qed.

End ExactRuns.

(** * Further properties of the code *)

(** ** The physics step, for every lawful number system *)

Section MorePhysics.
Context {T : Type} {N : Number T}.
Local Open Scope js_scope.

Lemma scoreTest_needs_flag `{!NumberLaws T} (w : Window T) (b : @Ball T) :
  scoreTest w (atScoreTest w b) (trackAboveRim w b false) = false.
Proof.
  unfold scoreTest, trackAboveRim.
  destruct (y (pos (atScoreTest w b)) <? RIM_Y_POS) eqn:E.
  - apply ltb_asym in E. rewrite E. now rewrite !andb_false_r.
  - reflexivity.
Qed.

(** X1.  A step entered with [wasAboveRim] false never scores: the tick
    that first finds the ball above the rim line cannot be the scoring
    one.  So a tick with the flag clear leaves the score as it is, and the
    first tick after [fireShot] never scores, wherever the ball stands. *)
Theorem no_score_without_the_flag `{!NumberLaws T} :
  (forall (w : Window T) (b : @Ball T), snd (step w b false) <> Scored) /\
  (forall (w : Window T) (s : World T),
     wasAboveRim s = false ->
     score (updateGameState w s) = score s /\
     (gameState (updateGameState w s) = scored -> gameState s = scored)) /\
  (forall (w : Window T) (s : World T) (v : Vec T),
     stagedVelocity s = Some v ->
     score (updateGameState w (fireShot s)) = score s /\
     gameState (updateGameState w (fireShot s)) <> scored).
Proof.
  assert (A : forall (w : Window T) (b : @Ball T), snd (step w b false) <> Scored).
  { intros w b H. apply step_scored_iff in H. rewrite scoreTest_needs_flag in H.
    discriminate. }
  assert (B : forall (w : Window T) (s : World T),
             wasAboveRim s = false ->
             score (updateGameState w s) = score s /\
             (gameState (updateGameState w s) = scored -> gameState s = scored)).
  { intros w s Hf. rewrite updateGameState_cases, Hf.
    pose proof (A w (ballOf s)) as HA.
    destruct (snd (step w (ballOf s) false)); simpl; [auto | contradiction | ].
    split; [reflexivity | discriminate]. }
  split; [exact A | split; [exact B | ]].
  intros w s v E.
  assert (Hf : wasAboveRim (fireShot s) = false /\ score (fireShot s) = score s /\
               gameState (fireShot s) = shooting).
  { rewrite (fireShot_staged s v E).
    match goal with |- context [startGameLoop ?s0] =>
      destruct (startGameLoop_fields s0) as [Hg [_ [Hw [_ [_ [_ [_ [_ Hsc]]]]]]]] end.
    rewrite Hg, Hw, Hsc. repeat split. }
  destruct Hf as [Hw [Hsc Hg]]. destruct (B w (fireShot s) Hw) as [B1 B2].
  split; [now rewrite B1 | ].
  intros H. apply B2 in H. rewrite Hg in H. discriminate.
Qed.

Lemma world_eta (s : World T) :
  set_ballVelocity (ballVelocity s)
    (set_ballPosition (ballPosition s) (set_wasAboveRim (wasAboveRim s) s)) = s.
Proof. destruct s. reflexivity. Qed.

Lemma atRest_update (w : Window T) (s : World T) : atRest w s -> updateGameState w s = s.
Proof.
  intros [_ H]. unfold updateGameState. rewrite H. simpl. apply world_eta.
Qed.

Lemma atRest_frame (svc : Gemini.GeminiService) (w : Window T) (s : World T) (h : nat) :
  atRest w s -> frames s = [h] ->
  exists s',
    dispatch svc w (AnimationFrame h) s = Ok s' /\
    atRest w s' /\ frames s' = [nextFrame s] /\ nextFrame s' = S (nextFrame s) /\
    ballOf s' = ballOf s /\ score s' = score s /\ awaiting s' = awaiting s.
Proof.
  intros R Hf. simpl. rewrite Hf. simpl. rewrite Nat.eqb_refl. simpl.
  set (s0 := cancelAnimationFrame h s).
  assert (R0 : atRest w s0) by exact R.
  assert (F0 : frames s0 = []).
  { unfold s0, cancelAnimationFrame. simpl. rewrite Hf. apply remove_only. auto. }
  unfold loop. rewrite (atRest_update w s0 R0).
  destruct R0 as [G0 S0]. rewrite G0.
  eexists. split; [reflexivity | ].
  split; [split; [exact G0 | exact S0] | ].
  cbn [frames nextFrame requestAnimationFrame set_animationFrameId set_nextFrame
       set_frames fst snd ballOf ballPosition ballVelocity score awaiting].
  rewrite F0. repeat split.
Qed.

(** X2.  A shot need not end.  When the physics step maps the ball of a
    shot in flight to itself and continues, [updateGameState] changes
    nothing, and after any number of animation frames the game is still
    [shooting] with the same ball, the same score and no commentary
    requested, one frame pending as before. *)
Theorem resting_shot_never_ends
    (svc : Gemini.GeminiService) (w : Window T) (n : nat) (s : World T) (h : nat) :
  atRest w s -> frames s = [h] ->
  updateGameState w s = s /\
  exists s',
    run svc w (map AnimationFrame (h :: seq (nextFrame s) n)) s = Ok s' /\
    atRest w s' /\ ballOf s' = ballOf s /\
    score s' = score s /\ awaiting s' = awaiting s /\
    frames s' = [(nextFrame s + n)%nat].
Proof.
  intros R Hf. split; [now apply atRest_update | ].
  revert s h R Hf. induction n as [ | n IH]; intros s h R Hf.
  - destruct (atRest_frame svc w s h R Hf) as [s' [D [R' [F' [_ [B' [S' A']]]]]]].
    exists s'. cbn [seq map run]. rewrite D, Nat.add_0_r. auto 10.
  - destruct (atRest_frame svc w s h R Hf) as [s1 [D [R1 [F1 [N1 [B1 [S1 A1]]]]]]].
    destruct (IH s1 (nextFrame s) R1 F1) as [s' [D' [R' [B' [S' [A' F']]]]]].
    exists s'. rewrite N1 in D', F'.
    split.
    + cbn [seq map run] in D' |- *. rewrite D. exact D'.
    + split; [exact R' | ]. rewrite B', S', A', F', B1, S1, A1.
      repeat split. f_equal. lia.
Qed.

End MorePhysics.

(** ** The controller: bookkeeping in every reachable state *)

Section Bookkeeping.
Context {T : Type} {N : Number T}.
Local Open Scope js_scope.

Lemma loopAlive_not_shooting (s : World T) : gameState s <> shooting -> loopAlive s.
Proof. unfold loopAlive. intros H E. contradiction. Qed.

Lemma startGameLoop_rest (s : World T) :
  isLoadingGemini (startGameLoop s) = isLoadingGemini s /\
  awaiting (startGameLoop s) = awaiting s /\
  animateScore (startGameLoop s) = animateScore s /\
  animateNet (startGameLoop s) = animateNet s /\
  timers (startGameLoop s) = timers s.
Proof.
  unfold startGameLoop.
  destruct (animationFrameId s) as [h | ]; [destruct (Nat.eqb h 0) | ];
    simpl; repeat split.
Qed.

Lemma fireShot_bookkeeping (s : World T) :
  invariant s -> bookkeepingOk s -> bookkeepingOk (fireShot s).
Proof.
  intros [Hs _] [Hl [[Hc1 Hc2] Hi]].
  destruct (stagedVelocity s) as [v | ] eqn:E; [ | now rewrite fireShot_none].
  rewrite (fireShot_staged s v E).
  match goal with |- bookkeepingOk (startGameLoop ?s0) => remember s0 as s1 eqn:E1 end.
  assert (Hs1 : schedulerOk s1) by (subst s1; apply (schedulerOk_frame s); auto).
  destruct (startGameLoop_frames s1 Hs1) as [Hf _].
  destruct (startGameLoop_fields s1) as [Hg [Hst [_ [Hsh [_ [_ [_ [_ Hsc]]]]]]]].
  destruct (startGameLoop_rest s1) as [R1 [R2 [R3 [R4 R5]]]].
  unfold bookkeepingOk, loopAlive, countersOk, indicatorsOk.
  rewrite Hf, Hg, Hst, Hsh, Hsc, R1, R2, R3, R4, R5. subst s1. simpl.
  split; [intros _; split; [reflexivity | eauto] | ].
  split; [split; [lia | intros _; lia] | exact Hi].
Qed.

Lemma In_dropNth {A : Type} (a b : A) (i : nat) (l : list A) :
  In a l -> nth_error l i = Some b -> a <> b -> In a (dropNth i l).
Proof.
  unfold dropNth. revert i. induction l as [ | c l IH]; intros i Hin Hn Hab.
  - destruct Hin.
  - destruct i as [ | i]; simpl in *.
    + injection Hn as ->. destruct Hin as [-> | Hin]; [contradiction | exact Hin].
    + destruct Hin as [-> | Hin]; [now left | right; now apply IH].
Qed.

Lemma loop_bookkeeping (w : Window T) (s : World T) :
  frames s = [] -> (score s < shots s)%nat ->
  (gameState s = shooting -> stagedVelocity s = None) ->
  indicatorsOk s -> bookkeepingOk (loop w s).
Proof.
  intros Hf Hlt Hst [I1 [I2 I3]].
  unfold loop. rewrite updateGameState_cases.
  destruct (snd (step w (ballOf s) (wasAboveRim s))).
  - (* Continue *)
    cbn [gameState set_ballVelocity set_ballPosition set_wasAboveRim].
    assert (Hc : forall s0 : World T,
              frames s0 = [] -> score s0 = score s -> shots s0 = shots s -> countersOk s0).
    { intros s0 F0 S0 H0. unfold countersOk. rewrite F0, S0, H0.
      split; [lia | intros H; now contradiction H]. }
    destruct (gameState s) eqn:G;
      try (split; [apply loopAlive_not_shooting; simpl; rewrite G; discriminate
                  | split; [now apply Hc | exact (conj I1 (conj I2 I3))]]).
    split; [ | split; [ | exact (conj I1 (conj I2 I3))]].
    + intros _. simpl. rewrite Hf. split; [now apply Hst | simpl; eauto].
    + unfold countersOk. simpl. split; [lia | intros _; lia].
  - (* Scored *)
    unfold bookkeepingOk, loopAlive, countersOk, indicatorsOk. simpl. rewrite Hf.
    split; [intros E; discriminate E | ].
    split; [split; [lia | intros H; now contradiction H] | ].
    split; [intros _ E; now apply app_eq_nil in E as [_ E] | ].
    split; intros _; rewrite !in_app_iff; simpl; auto.
  - (* Missed *)
    unfold bookkeepingOk, loopAlive, countersOk, indicatorsOk. simpl. rewrite Hf.
    split; [intros E; discriminate E | ].
    split; [split; [lia | intros H; now contradiction H] | ].
    split; [intros _ E; now apply app_eq_nil in E as [_ E] | auto].
Qed.

Lemma dispatch_bookkeeping (svc : Gemini.GeminiService) (w : Window T)
    (e : Event) (s s' : World T) :
  dispatch svc w e s = Ok s' -> invariant s -> bookkeepingOk s -> bookkeepingOk s'.
Proof.
  destruct e as [key | p | p | p | | | h | i | i gen]; simpl; intros H I B.
  - injection H as <-. unfold onKeyDown.
    destruct (gameState s) eqn:G; try exact B.
    destruct (_ || _); [now apply fireShot_bookkeeping | exact B].
  - injection H as <-. unfold onPointerDown, onAimStart.
    destruct B as [Hl [Hc Hi]].
    destruct (gameState s) eqn:G; try (split; [exact Hl | split; assumption]);
      (split; [apply loopAlive_not_shooting; simpl; discriminate | split; assumption]).
  - injection H as <-. unfold onPointerMove, onAiming, isAiming.
    destruct (gameState s) eqn:G; exact B.
  - unfold onPointerUp, onAimEnd, isAiming in H.
    destruct (gameState s) eqn:G; try (now injection H as <-).
    destruct (aimStartPos s); [ | discriminate].
    destruct (aimCurrentPos s); [ | discriminate].
    destruct B as [Hl [Hc Hi]].
    destruct (_ =? _); [ | destruct (_ >? _)]; injection H as <-;
      (split; [apply loopAlive_not_shooting; simpl; discriminate | split; assumption]).
  - injection H as <-. now apply fireShot_bookkeeping.
  - injection H as <-. destruct B as [Hl [Hc Hi]].
    split; [apply loopAlive_not_shooting; simpl; discriminate | split; assumption].
  - destruct (existsb (Nat.eqb h) (frames s)) eqn:E; injection H as <-; [ | exact B].
    destruct I as [Hs _]. destruct B as [Hl [[Hc1 Hc2] Hi]].
    pose proof (cancel_pending_frame h s Hs E) as Hf.
    apply loop_bookkeeping; [exact Hf | | | exact Hi].
    + simpl. apply Hc2. intros Hn. rewrite Hn in E. discriminate.
    + simpl. intros G. now apply Hl.
  - destruct (nth_error (timers s) i) as [t | ] eqn:E; injection H as <-; [ | exact B].
    destruct B as [Hl [Hc [I1 [I2 I3]]]].
    destruct t; (split; [exact Hl | split; [exact Hc | ]]);
      (split; [exact I1 | split]); simpl; intros A; try discriminate A.
    + apply (In_dropNth _ ClearAnimateScore); auto. discriminate.
    + apply (In_dropNth _ ClearAnimateNet); auto. discriminate.
  - destruct (nth_error (awaiting s) i) as [d | ]; [ | now injection H as <-].
    destruct (Gemini.getShotReaction svc gen d) as [r logged].
    unfold fetchGeminiReaction_resume in H. injection H as <-.
    destruct B as [Hl [Hc [I1 [I2 I3]]]].
    destruct r; (split; [exact Hl | split; [exact Hc | ]]);
      (split; [intros A; discriminate A | split; assumption]).
Qed.

Lemma initial_bookkeeping (w : Window T) : bookkeepingOk (initial w).
Proof.
  split; [apply loopAlive_not_shooting; discriminate | ].
  split; [split; [simpl; lia | intros H; now contradiction H] | ].
  repeat split; intros A; discriminate A.
Qed.

Lemma reachable_bookkeeping (svc : Gemini.GeminiService) (s : World T) :
  reachable svc s -> bookkeepingOk s.
Proof.
  induction 1 as [w | w e s s' Hr IH H].
  - apply initial_bookkeeping.
  - exact (dispatch_bookkeeping svc w e s s' H (reachable_invariant svc s Hr) IH).
Qed.

(** X3.  In every reachable state the score is at most the number of
    shots: a basket is only ever counted for a shot that was fired.  While
    an animation frame is pending the score is even below the number of
    shots, so a frame that outlives a reset cannot break the count. *)
Theorem score_never_exceeds_shots (svc : Gemini.GeminiService) (s : World T) :
  reachable svc s ->
  (score s <= shots s)%nat /\ (frames s <> [] -> (score s < shots s)%nat).
Proof. intros Hr. exact (proj1 (proj2 (reachable_bookkeeping svc s Hr))). Qed.

(** X4.  While a shot is in flight its loop is alive and nothing else
    steers it: in every reachable [shooting] state exactly one animation
    frame is pending, the one the component holds, nothing is staged, and
    key, pointer and fire events leave the state exactly as it is. *)
Theorem shot_in_flight_is_undisturbed
    (svc : Gemini.GeminiService) (s : World T) :
  reachable svc s -> gameState s = shooting ->
  (exists h, frames s = [h] /\ animationFrameId s = Some h) /\
  stagedVelocity s = None /\
  (forall (w : Window T) (key : string), dispatch svc w (KeyDown key) s = Ok s) /\
  (forall (w : Window T) (p : Vec T),
     dispatch svc w (PointerDown p) s = Ok s /\
     dispatch svc w (PointerMove p) s = Ok s /\
     dispatch svc w (PointerUp p) s = Ok s) /\
  (forall w : Window T, dispatch svc w FireRequested s = Ok s).
Proof.
  intros Hr G.
  destruct (reachable_bookkeeping svc s Hr) as [Hl _].
  destruct (reachable_invariant svc s Hr) as [[_ Hs] _].
  destruct (Hl G) as [Hst [h Hf]].
  split.
  - exists h. split; [exact Hf | ].
    destruct Hs as [Hs | [h' [Hs [Hid _]]]]; rewrite Hf in Hs; [discriminate | ].
    now injection Hs as ->.
  - split; [exact Hst | ]. simpl.
    unfold onKeyDown, onPointerDown, onPointerMove, onPointerUp, isAiming.
    rewrite G, (fireShot_none s Hst). repeat split.
Qed.

(** X5.  No indicator is stuck on: in every reachable state the loading
    flag is set only while a commentary call is in flight, and each of the
    two animation flags only while the timer that clears it is pending. *)
Theorem indicators_are_backed (svc : Gemini.GeminiService) (s : World T) :
  reachable svc s ->
  (isLoadingGemini s = true -> awaiting s <> []) /\
  (animateScore s = true -> In ClearAnimateScore (timers s)) /\
  (animateNet s = true -> In ClearAnimateNet (timers s)).
Proof. intros Hr. apply (reachable_bookkeeping svc s Hr). Qed.

(** X6.  [resetShot] does not cancel the animation frame of a shot in
    flight.  The frame still pending after a reset runs one more physics
    step, on the ball at its start position and at rest, and then the loop
    stops: nothing is pending and the game is not [shooting]. *)
Theorem reset_leaves_the_pending_frame
    (svc : Gemini.GeminiService) (w1 w2 : Window T) (s : World T) (h : nat) :
  frames s = [h] ->
  frames (resetShot w1 s) = [h] /\
  ballOf (cancelAnimationFrame h (resetShot w1 s)) =
    mkBall (mkVec (ofQ 150) (innerHeight w1 - ofQ 150)) (mkVec (ofQ 0) (ofQ 0)) /\
  dispatch svc w2 (AnimationFrame h) (resetShot w1 s) =
    Ok (updateGameState w2 (cancelAnimationFrame h (resetShot w1 s))) /\
  frames (updateGameState w2 (cancelAnimationFrame h (resetShot w1 s))) = [] /\
  gameState (updateGameState w2 (cancelAnimationFrame h (resetShot w1 s))) <> shooting.
Proof.
  intros Hf.
  set (s0 := cancelAnimationFrame h (resetShot w1 s)).
  assert (Hf0 : frames s0 = []).
  { unfold s0, cancelAnimationFrame. simpl. rewrite Hf. apply remove_only. auto. }
  assert (Hg0 : gameState s0 = positioning) by reflexivity.
  destruct (updateGameState_aim w2 s0) as [_ [_ [_ Hg]]].
  destruct (updateGameState_scheduler w2 s0) as [Hfu _].
  assert (Hns : gameState (updateGameState w2 s0) <> shooting).
  { rewrite Hg0 in Hg. destruct Hg as [-> | [-> | ->]]; discriminate. }
  split; [exact Hf | ]. split; [reflexivity | ]. split.
  - simpl. rewrite Hf. simpl. rewrite Nat.eqb_refl. simpl. fold s0.
    unfold loop. destruct (gameState (updateGameState w2 s0)); try reflexivity.
    now contradiction Hns.
  - split; [now rewrite Hfu | exact Hns].
Qed.

(** X7.  [resetShot] clears the message but does not cancel a commentary
    call in flight: when the call settles after the reset, its text, or
    the fallback, is shown although the game is back in [positioning]. *)
Theorem reset_does_not_cancel_commentary
    (svc : Gemini.GeminiService) (w1 w2 : Window T) (i : nat)
    (generateContent : Gemini.Remote) (didScore : bool) (s : World T) :
  nth_error (awaiting s) i = Some didScore ->
  geminiMessage (resetShot w1 s) = ""%string /\
  exists s',
    dispatch svc w2 (ReactionSettled i generateContent) (resetShot w1 s) = Ok s' /\
    gameState s' = positioning /\
    geminiMessage s' =
      match fst (Gemini.getShotReaction svc generateContent didScore) with
      | Ok message => message
      | Throw _ => FALLBACK
      end.
Proof.
  intros E. split; [reflexivity | ]. simpl. rewrite E.
  destruct (Gemini.getShotReaction svc generateContent didScore) as [r logged].
  unfold fetchGeminiReaction_resume. eexists. split; [reflexivity | ].
  destruct r; split; reflexivity.
Qed.

End Bookkeeping.

(** ** Keys *)

Section Keys.
Context {T : Type} {N : Number T}.
Local Open Scope string_scope.

Lemma toLowerAscii_x (c : ascii) :
  toLowerAscii c = "x"%char -> c = "x"%char \/ c = "X"%char.
Proof.
  destruct c as [[] [] [] [] [] [] [] []]; vm_compute; intros H;
    try discriminate H; auto.
Qed.

Lemma toLowerAscii_c (c : ascii) :
  toLowerAscii c = "c"%char -> c = "c"%char \/ c = "C"%char.
Proof.
  destruct c as [[] [] [] [] [] [] [] []]; vm_compute; intros H;
    try discriminate H; auto.
Qed.

Lemma toLowerCase_single (key : string) (a : ascii) :
  toLowerCase key = String a EmptyString ->
  exists c, key = String c EmptyString /\ toLowerAscii c = a.
Proof.
  destruct key as [ | c [ | d k]]; simpl; intros H; try discriminate H.
  injection H as H. exists c. auto.
Qed.

Lemma isFireKey_spec (key : string) :
  isFireKey key = true <-> In key ["x"; "X"; "c"; "C"].
Proof.
  unfold isFireKey. rewrite orb_true_iff, !String.eqb_eq. split.
  - intros [H | H]; apply toLowerCase_single in H as [c [-> H]].
    + apply toLowerAscii_x in H as [-> | ->]; simpl; auto.
    + apply toLowerAscii_c in H as [-> | ->]; simpl; auto.
  - simpl. intros [<- | [<- | [<- | [<- | []]]]]; auto.
Qed.

(** X8.  In state [ready] exactly the keys x, X, c and C fire the shot;
    every other key leaves the state as it is. *)
Theorem exactly_four_keys_fire (w : Window T) (key : string) (s : World T) :
  gameState s = ready ->
  (In key ["x"; "X"; "c"; "C"] -> onKeyDown w key s = fireShot s) /\
  (~ In key ["x"; "X"; "c"; "C"] -> onKeyDown w key s = s).
Proof.
  intros G. unfold onKeyDown. rewrite G.
  fold (isFireKey key). rewrite <- isFireKey_spec.
  destruct (isFireKey key); split; intros H; try reflexivity; try discriminate.
  now contradiction H.
Qed.

End Keys.

(** ** The commentary service *)

Section Service.
Local Open Scope string_scope.
Import Gemini.

(** X9.  A service constructed without an API key, or with an empty one,
    answers every request with its configuration message, without asking
    the remote model and without failing.  Constructed with a key, it
    passes the remote text on; when the remote call fails it rejects with
    one fixed error and writes the cause to the console.  These are its
    only rejections. *)
Theorem constructed_service_reaction
    (API_KEY : option string) (generateContent : Remote) (didScore : bool) :
  (truthy_opt API_KEY = false ->
   getShotReaction (create API_KEY) generateContent didScore =
   (Ok "API key not configured. Please set the API_KEY environment variable.", [])) /\
  (truthy_opt API_KEY = true ->
   getShotReaction (create API_KEY) generateContent didScore =
   match generateContent "gemini-2.5-flash" (prompt didScore) with
   | Ok text => (Ok text, [])
   | Throw e => (Throw (Error "Failed to get a reaction from Gemini."), [e])
   end) /\
  (forall e, fst (getShotReaction (create API_KEY) generateContent didScore) = Throw e ->
     e = Error "Failed to get a reaction from Gemini." /\ truthy_opt API_KEY = true /\
     exists e0, generateContent "gemini-2.5-flash" (prompt didScore) = Throw e0 /\
       snd (getShotReaction (create API_KEY) generateContent didScore) = [e0]).
Proof.
  unfold create, getShotReaction.
  destruct (truthy_opt API_KEY) eqn:K.
  - destruct API_KEY as [k | ]; [ | discriminate K]. simpl.
    split; [discriminate | ]. split; [reflexivity | ].
    intros e H.
    destruct (generateContent "gemini-2.5-flash" (prompt didScore)) as [t | e0];
      simpl in H; [discriminate H | ].
    injection H as <-. repeat split. now exists e0.
  - simpl. split; [reflexivity | ]. split; [discriminate | ].
    intros e H. discriminate H.
Qed.

End Service.

(** ** The physics step, in exact arithmetic *)

(** The booleans of the exact instance, as propositions. *)
Ltac exact_bools :=
  repeat match goal with
  | H : Exact.ltb _ _ = true |- _ => apply ExactLaws.ltb_lt in H
  | H : Exact.ltb _ _ = false |- _ => apply ExactLaws.ltb_ge in H
  | |- Exact.ltb _ _ = true => apply ExactLaws.ltb_lt
  | |- Exact.ltb _ _ = false => apply ExactLaws.ltb_ge
  end.

Section ExactPhysics.
Local Open Scope R_scope.

Lemma BALL_RADIUS_exact : BALL_RADIUS = 20.
Proof. unfold BALL_RADIUS. simpl. unfold Q2R. simpl. lra. Qed.

Lemma GRAVITY_exact : GRAVITY = 4 / 10.
Proof. unfold GRAVITY. simpl. unfold Q2R. simpl. lra. Qed.

Lemma RIM_Y_POS_exact : RIM_Y_POS = 250.
Proof. unfold RIM_Y_POS, HOOP_POS, BACKBOARD_height. simpl. unfold Q2R. simpl. lra. Qed.

Lemma BACKBOARD_X_exact (w : Window R) : BACKBOARD_X w = innerWidth w - 100.
Proof. unfold BACKBOARD_X. simpl. unfold Q2R. simpl. lra. Qed.

Lemma ofQ_0_exact : @ofQ R _ 0 = 0.
Proof. simpl. unfold Q2R. simpl. lra. Qed.

Lemma ofQ_100_exact : @ofQ R _ 100 = 100.
Proof. simpl. unfold Q2R. simpl. lra. Qed.

Lemma floorBounce_y (w : Window R) (b : @Ball R) :
  y (pos (floorBounce w b)) <= innerHeight w - 20.
Proof.
  unfold floorBounce, hitsFloor. rewrite BALL_RADIUS_exact.
  cbn [add sub ltb R_Number].
  destruct (Exact.ltb (innerHeight w) (y (pos b) + 20)) eqn:E; exact_bools;
    cbn [pos y]; lra.
Qed.

Lemma wallBounce_y (w : Window R) (b : @Ball R) : y (pos (wallBounce w b)) = y (pos b).
Proof. unfold wallBounce. destruct (hitsWall w b); reflexivity. Qed.

Lemma backboardBounce_y (w : Window R) (b : @Ball R) :
  y (pos (backboardBounce w b)) = y (pos b).
Proof. unfold backboardBounce. destruct (hitsBackboard w b); reflexivity. Qed.

Lemma rimPostBounce_pos (w : Window R) (b : @Ball R) : pos (rimPostBounce w b) = pos b.
Proof. unfold rimPostBounce. destruct (hitsRimPost w b); reflexivity. Qed.

Lemma atScoreTest_y (w : Window R) (b : @Ball R) :
  y (pos (atScoreTest w b)) <= innerHeight w - 20.
Proof. unfold atScoreTest. rewrite wallBounce_y. apply floorBounce_y. Qed.

Lemma atMissTest_y (w : Window R) (b : @Ball R) :
  y (pos (atMissTest w b)) <= innerHeight w - 20.
Proof.
  unfold atMissTest. rewrite rimPostBounce_pos, backboardBounce_y. apply atScoreTest_y.
Qed.

Lemma wallBounce_x (w : Window R) (b : @Ball R) :
  40 <= innerWidth w ->
  20 <= x (pos (wallBounce w b)) <= innerWidth w - 20.
Proof.
  intros HW. unfold wallBounce, hitsWall. rewrite BALL_RADIUS_exact, ofQ_0_exact.
  cbn [add sub ltb R_Number].
  destruct (Exact.ltb (innerWidth w) (x (pos b) + 20)) eqn:E1;
    destruct (Exact.ltb (x (pos b) - 20) 0) eqn:E2; exact_bools;
    cbn [orb pos x]; lra.
Qed.

Lemma backboardBounce_x (w : Window R) (b : @Ball R) :
  140 <= innerWidth w ->
  20 <= x (pos b) <= innerWidth w - 20 ->
  20 <= x (pos (backboardBounce w b)) <= innerWidth w - 20.
Proof.
  intros HW Hx. unfold backboardBounce. rewrite BALL_RADIUS_exact, BACKBOARD_X_exact.
  destruct (hitsBackboard w b); cbn [pos x sub R_Number]; lra.
Qed.

Lemma atMissTest_x (w : Window R) (b : @Ball R) :
  140 <= innerWidth w ->
  20 <= x (pos (atMissTest w b)) <= innerWidth w - 20.
Proof.
  intros HW. unfold atMissTest. rewrite rimPostBounce_pos.
  apply backboardBounce_x; [exact HW | ]. unfold atScoreTest. apply wallBounce_x. lra.
Qed.

Lemma backboardBounce_clear (w : Window R) (b : @Ball R) :
  hitsBackboard w (backboardBounce w b) = false.
Proof.
  unfold backboardBounce. destruct (hitsBackboard w b) eqn:E; [ | exact E].
  unfold hitsBackboard. cbn [pos x y]. rewrite BALL_RADIUS_exact.
  cbn [add sub ltb R_Number].
  assert (H : Exact.ltb (BACKBOARD_X w) (BACKBOARD_X w - 20 + 20) = false)
    by (exact_bools; lra).
  rewrite H. reflexivity.
Qed.

(** X10.  In exact arithmetic the ball a step ends with never overlaps
    the floor, and in a window at least 140 wide neither a side wall nor
    the backboard: each of these bounces puts the ball back in contact
    position.  The rim-post bounce does not: it leaves the position as it
    is, so a ball that overlaps a post still does after the bounce. *)
Theorem step_resolves_collisions (w : Window R) (b : @Ball R) :
  y (pos (atMissTest w b)) <= innerHeight w - BALL_RADIUS /\
  fires Floor w (atMissTest w b) = false /\
  (140 <= innerWidth w ->
   BALL_RADIUS <= x (pos (atMissTest w b)) <= innerWidth w - BALL_RADIUS /\
   fires Wall w (atMissTest w b) = false /\
   fires Backboard w (atMissTest w b) = false) /\
  (forall b' : @Ball R, fires RimPost w (bounce RimPost w b') = fires RimPost w b').
Proof.
  pose proof (atMissTest_y w b) as Hy.
  rewrite BALL_RADIUS_exact. split; [exact Hy | ]. split; [ | split].
  - cbn [fires]. unfold hitsFloor. rewrite BALL_RADIUS_exact.
    cbn [add ltb R_Number]. exact_bools. lra.
  - intros HW. pose proof (atMissTest_x w b HW) as Hx. split; [exact Hx | ]. split.
    + cbn [fires]. unfold hitsWall. rewrite BALL_RADIUS_exact, ofQ_0_exact.
      cbn [add sub ltb R_Number]. apply orb_false_iff. split; exact_bools; lra.
    + cbn [fires]. unfold atMissTest.
      unfold hitsBackboard. rewrite rimPostBounce_pos.
      exact (backboardBounce_clear w (atScoreTest w b)).
  - intros b'. cbn [fires bounce]. unfold hitsRimPost. now rewrite rimPostBounce_pos.
Qed.

(** The ball in the bottom right corner. *)
Lemma step_resolves_collisions_witness :
  y (pos (atMissTest courtR ballInCornerR)) <= innerHeight courtR - BALL_RADIUS /\
  fires Floor courtR (atMissTest courtR ballInCornerR) = false /\
  (140 <= innerWidth courtR ->
   BALL_RADIUS <= x (pos (atMissTest courtR ballInCornerR))
     <= innerWidth courtR - BALL_RADIUS /\
   fires Wall courtR (atMissTest courtR ballInCornerR) = false /\
   fires Backboard courtR (atMissTest courtR ballInCornerR) = false) /\
  (forall b' : @Ball R,
     fires RimPost courtR (bounce RimPost courtR b') = fires RimPost courtR b').
Proof. exact (step_resolves_collisions courtR ballInCornerR). Defined.

(** X11.  In exact arithmetic the first alternative of the miss test,
    the ball more than 100 below the court, never holds where the test is
    made, because the floor bounce has just put the ball on the floor: a
    step ends in [Missed] only for a ball that has settled. *)
Theorem miss_is_always_a_settle (w : Window R) (b : @Ball R) (wasAbove : bool) :
  (y (pos (atMissTest w b)) >? innerHeight w + ofQ 100)%js = false /\
  missTest w (atMissTest w b) =
    ((abs (x (vel (atMissTest w b))) <? ofQ 0.1)%js &&
     (abs (y (vel (atMissTest w b))) <? ofQ 0.1)%js &&
     (y (pos (atMissTest w b)) >? innerHeight w - BALL_RADIUS - ofQ 1)%js) /\
  (snd (step w b wasAbove) = Missed ->
   (abs (x (vel (atMissTest w b))) <? ofQ 0.1)%js = true /\
   (abs (y (vel (atMissTest w b))) <? ofQ 0.1)%js = true /\
   (y (pos (atMissTest w b)) >? innerHeight w - BALL_RADIUS - ofQ 1)%js = true).
Proof.
  pose proof (atMissTest_y w b) as Hy.
  assert (H : (y (pos (atMissTest w b)) >? innerHeight w + ofQ 100)%js = false).
  { rewrite ofQ_100_exact. cbn [add ltb R_Number]. exact_bools. lra. }
  split; [exact H | ]. split; [unfold missTest; now rewrite H | ].
  intros Hm. rewrite step_outcome in Hm.
  destruct (scoreTest w (atScoreTest w b) (trackAboveRim w b wasAbove)); [discriminate | ].
  destruct (missTest w (atMissTest w b)) eqn:E; [ | discriminate].
  apply missTest_spec in E. destruct E as [E | E]; [ | exact E].
  rewrite H in E. discriminate.
Qed.

Lemma hypot_ge_abs (a b : R) : Rabs b <= Exact.hypot a b.
Proof.
  unfold Exact.hypot. rewrite <- sqrt_Rsqr_abs. apply sqrt_le_1_alt. unfold Rsqr.
  pose proof (Rle_0_sqr a) as H. unfold Rsqr in H. lra.
Qed.

Lemma restingBall_floor (w : Window R) (x0 : R) :
  floorBounce w (integrate (restingBall w x0)) = restingBall w x0.
Proof.
  unfold floorBounce, hitsFloor, integrate, restingBall. cbn [pos vel x y].
  rewrite BALL_RADIUS_exact, GRAVITY_exact, BOUNCE_DAMPENING_exact.
  cbn [add sub mul neg ltb R_Number].
  match goal with |- context [Exact.ltb ?a ?b] => destruct (Exact.ltb a b) eqn:E end;
    exact_bools; [ | lra].
  f_equal; f_equal; lra.
Qed.

Lemma restingBall_clear (w : Window R) (x0 : R) :
  320 <= innerHeight w -> 20 <= x0 <= innerWidth w - 20 ->
  hitsWall w (restingBall w x0) = false /\
  hitsBackboard w (restingBall w x0) = false /\
  hitsRimPost w (restingBall w x0) = false.
Proof.
  intros HH Hx. unfold hitsWall, hitsBackboard, hitsRimPost, restingBall.
  cbn [pos vel x y]. rewrite BALL_RADIUS_exact, RIM_Y_POS_exact, ofQ_0_exact.
  unfold HOOP_POS, BACKBOARD_height. cbn [x y add sub ltb hypot ofQ R_Number].
  replace (Q2R 200) with 200 by (unfold Q2R; simpl; lra).
  replace (Q2R 100) with 100 by (unfold Q2R; simpl; lra).
  split; [ | split].
  - apply orb_false_iff. split; exact_bools; lra.
  - rewrite !andb_false_iff. right. exact_bools. lra.
  - apply orb_false_iff. split; exact_bools;
      (eapply Rle_trans; [ | apply hypot_ge_abs]); rewrite Rabs_right; lra.
Qed.

(** X12.  A ball lying on the floor is never declared missed.  In a
    window at least 320 high, the ball on the floor, clear of the walls,
    with vertical velocity -14/85 is mapped to itself by the physics step,
    which continues: gravity and the dampened floor bounce cancel at a
    speed above the 0.1 below which the miss test calls the ball settled.
    A shot in flight with this ball is at rest in the sense of X2. *)
Theorem ball_at_rest_is_never_missed (w : Window R) (x0 : R) (wasAbove : bool) :
  320 <= innerHeight w -> 20 <= x0 <= innerWidth w - 20 ->
  step w (restingBall w x0) wasAbove = (restingBall w x0, wasAbove, Continue) /\
  (forall s : World R,
     gameState s = shooting -> ballOf s = restingBall w x0 -> atRest w s).
Proof.
  intros HH Hx.
  destruct (restingBall_clear w x0 HH Hx) as [Hw [Hb Hr]].
  assert (A : atScoreTest w (restingBall w x0) = restingBall w x0).
  { unfold atScoreTest. rewrite restingBall_floor. unfold wallBounce. now rewrite Hw. }
  assert (B : atMissTest w (restingBall w x0) = restingBall w x0).
  { unfold atMissTest. rewrite A. unfold backboardBounce. rewrite Hb.
    unfold rimPostBounce. now rewrite Hr. }
  assert (S : forall f, step w (restingBall w x0) f = (restingBall w x0, f, Continue)).
  { intros f. unfold step, trackAboveRim. rewrite A, B.
    assert (T1 : (y (pos (restingBall w x0)) <? RIM_Y_POS)%js = false).
    { rewrite RIM_Y_POS_exact. cbn [restingBall pos y ltb R_Number]. exact_bools. lra. }
    assert (T2 : scoreTest w (restingBall w x0) f = false).
    { unfold scoreTest. rewrite ofQ_0_exact. cbn [restingBall vel y ltb R_Number].
      assert (D : Exact.ltb 0 (- (14 / 85)) = false) by (exact_bools; lra).
      rewrite D. now rewrite andb_false_r. }
    assert (T3 : missTest w (restingBall w x0) = false).
    { unfold missTest. rewrite ofQ_100_exact, BALL_RADIUS_exact.
      cbn [restingBall pos vel x y add sub ltb abs ofQ R_Number].
      assert (D1 : Exact.ltb (innerHeight w + 100) (innerHeight w - 20) = false)
        by (exact_bools; lra).
      assert (D2 : Exact.ltb (Rabs (- (14 / 85))) (Q2R 0.1) = false).
      { exact_bools. rewrite Rabs_Ropp, Rabs_right by lra. unfold Q2R. simpl. lra. }
      rewrite D1, D2. now rewrite andb_false_r. }
    rewrite T1, T2, T3. reflexivity. }
  split; [apply S | ].
  intros s G E. split; [exact G | ]. rewrite E. apply S.
Qed.


(** The court of 1000 by 800, the ball under its start position. *)
Lemma ball_at_rest_is_never_missed_witness :
  320 <= innerHeight courtR /\ 20 <= 150 <= innerWidth courtR - 20 /\
  step courtR (restingBall courtR 150) false = (restingBall courtR 150, false, Continue) /\
  (forall s : World R,
     gameState s = shooting -> ballOf s = restingBall courtR 150 -> atRest courtR s).
Proof.
  assert (HH : 320 <= innerHeight courtR) by (simpl; lra).
  assert (Hx : 20 <= 150 <= innerWidth courtR - 20) by (simpl; lra).
  split; [exact HH | ]. split; [exact Hx | ].
  exact (ball_at_rest_is_never_missed courtR 150 false HH Hx).
Defined.

End ExactPhysics.

(** ** Horizontal speed, in exact arithmetic *)

Section ExactSpeed.
Local Open Scope R_scope.

Lemma floorBounce_vx (w : Window R) (b : @Ball R) :
  Rabs (x (vel (floorBounce w b))) <= Rabs (x (vel b)).
Proof.
  unfold floorBounce. destruct (hitsFloor w b); [ | lra].
  cbn [vel x mul R_Number]. rewrite BOUNCE_DAMPENING_exact, Rabs_scale by lra.
  apply damp_le.
Qed.

Lemma wallBounce_vx (w : Window R) (b : @Ball R) :
  Rabs (x (vel (wallBounce w b))) = Rabs (x (vel b)).
Proof.
  unfold wallBounce. destruct (hitsWall w b); [ | reflexivity].
  cbn [vel x mul ofQ R_Number].
  replace (x (vel b) * Q2R (-1)) with (Ropp (x (vel b))) by (unfold Q2R; simpl; lra).
  apply Rabs_Ropp.
Qed.

Lemma backboardBounce_vx (w : Window R) (b : @Ball R) :
  Rabs (x (vel (backboardBounce w b))) <= Rabs (x (vel b)).
Proof.
  unfold backboardBounce. destruct (hitsBackboard w b); [ | lra].
  cbn [vel x mul neg R_Number]. rewrite BOUNCE_DAMPENING_exact, Rabs_scale_neg by lra.
  apply damp_le.
Qed.

Lemma rimPostBounce_vx (w : Window R) (b : @Ball R) :
  Rabs (x (vel (rimPostBounce w b))) <= Rabs (x (vel b)).
Proof.
  unfold rimPostBounce. destruct (hitsRimPost w b); [ | lra].
  cbn [vel x mul R_Number]. rewrite BOUNCE_DAMPENING_exact, Rabs_scale by lra.
  apply damp_le.
Qed.

Lemma atMissTest_vx (w : Window R) (b : @Ball R) :
  Rabs (x (vel (atMissTest w b))) <= Rabs (x (vel b)).
Proof.
  unfold atMissTest, atScoreTest.
  eapply Rle_trans; [apply rimPostBounce_vx | ].
  eapply Rle_trans; [apply backboardBounce_vx | ].
  rewrite wallBounce_vx.
  eapply Rle_trans; [apply floorBounce_vx | ]. simpl. lra.
Qed.

Lemma updateGameState_vx (w : Window R) (s : World R) :
  Rabs (x (ballVelocity (updateGameState w s))) <= Rabs (x (ballVelocity s)).
Proof.
  rewrite updateGameState_cases.
  destruct (snd (step w (ballOf s) (wasAboveRim s))); simpl; try lra.
  apply (atMissTest_vx w (ballOf s)).
Qed.

(** X13.  In exact arithmetic the horizontal speed of the ball never
    increases: not in one call of [updateGameState], not over any number
    of them, and not in a whole animation frame. *)
Theorem horizontal_speed_never_increases (w : Window R) (s : World R) (n : nat) :
  Rabs (x (ballVelocity (Nat.iter n (updateGameState w) s))) <= Rabs (x (ballVelocity s)) /\
  Rabs (x (ballVelocity (loop w s))) <= Rabs (x (ballVelocity s)).
Proof.
  split.
  - induction n as [ | n IH]; simpl; [lra | ].
    eapply Rle_trans; [apply updateGameState_vx | exact IH].
  - destruct (loop_ball w s) as [_ [-> _]]. apply updateGameState_vx.
Qed.











End ExactSpeed.

(** ** Positioning and the shadow, in exact arithmetic *)

Section ExactUI.
Local Open Scope R_scope.

Lemma clamp_bounds (lo hi v : R) : lo <= hi -> lo <= Rmax lo (Rmin v hi) <= hi.
Proof.
  intros H. unfold Rmax, Rmin.
  destruct (Rle_dec v hi); destruct (Rle_dec lo _); lra.
Qed.

Lemma clamp_inside (lo hi v : R) : lo <= v <= hi -> Rmax lo (Rmin v hi) = v.
Proof.
  intros H. unfold Rmax, Rmin.
  destruct (Rle_dec v hi); destruct (Rle_dec lo _); lra.
Qed.

Lemma onKeyDown_positioning (w : Window R) (key : string) (s : World R) :
  gameState s = positioning ->
  exists dx dy,
    onKeyDown w key s =
    set_ballPosition
      (mkVec (Rmax 20 (Rmin (x (ballPosition s) + dx) (innerWidth w / 2 - 20)))
             (Rmax 20 (Rmin (y (ballPosition s) + dy) (innerHeight w - 20)))) s /\
    (dx, dy) =
      (if String.eqb key "ArrowUp" then (0, -10)
       else if String.eqb key "ArrowDown" then (0, 10)
       else if String.eqb key "ArrowLeft" then (-10, 0)
       else if String.eqb key "ArrowRight" then (10, 0)
       else (0, 0)).
Proof.
  intros G. unfold onKeyDown. rewrite G. rewrite BALL_RADIUS_exact.
  cbn [max min sub add div ofQ R_Number].
  replace (Q2R 2) with 2 by (unfold Q2R; simpl; lra).
  replace (Q2R 10) with 10 by (unfold Q2R; simpl; lra).
  destruct (String.eqb key "ArrowUp");
    [ | destruct (String.eqb key "ArrowDown");
        [ | destruct (String.eqb key "ArrowLeft");
            [ | destruct (String.eqb key "ArrowRight")]]];
    eexists; eexists; (split; [ | reflexivity]); cbn [x y];
    repeat f_equal; lra.
Qed.

(** X15.  While positioning, a key changes nothing but the ball position,
    and the new position lies within the left half of the court, a radius
    away from its edges, whatever the old one was (the window being at
    least 80 wide and 40 high).  An arrow key moves the ball by 10 where
    that stays inside; any other key leaves a ball that is inside where it
    is. *)
Theorem positioning_stays_in_the_left_half (w : Window R) (key : string) (s : World R) :
  gameState s = positioning -> 80 <= innerWidth w -> 40 <= innerHeight w ->
  BALL_RADIUS <= x (ballPosition (onKeyDown w key s)) <= innerWidth w / 2 - BALL_RADIUS /\
  BALL_RADIUS <= y (ballPosition (onKeyDown w key s)) <= innerHeight w - BALL_RADIUS /\
  onKeyDown w key s = set_ballPosition (ballPosition (onKeyDown w key s)) s /\
  (BALL_RADIUS <= x (ballPosition s) <= innerWidth w / 2 - BALL_RADIUS ->
   BALL_RADIUS <= y (ballPosition s) <= innerHeight w - BALL_RADIUS ->
   key <> "ArrowUp"%string -> key <> "ArrowDown"%string ->
   key <> "ArrowLeft"%string -> key <> "ArrowRight"%string ->
   ballPosition (onKeyDown w key s) = ballPosition s) /\
  (key = "ArrowRight"%string ->
   x (ballPosition s) + 10 <= innerWidth w / 2 - BALL_RADIUS ->
   BALL_RADIUS <= x (ballPosition s) + 10 ->
   x (ballPosition (onKeyDown w key s)) = x (ballPosition s) + 10) /\
  (key = "ArrowUp"%string ->
   BALL_RADIUS <= y (ballPosition s) - 10 ->
   y (ballPosition s) - 10 <= innerHeight w - BALL_RADIUS ->
   y (ballPosition (onKeyDown w key s)) = y (ballPosition s) - 10).
Proof.
  intros G HW HH. rewrite BALL_RADIUS_exact.
  destruct (onKeyDown_positioning w key s G) as [dx [dy [E D]]]. rewrite E.
  cbn [ballPosition set_ballPosition x y].
  split; [apply clamp_bounds; lra | ]. split; [apply clamp_bounds; lra | ].
  split; [reflexivity | ]. split; [ | split].
  - intros Hx Hy N1 N2 N3 N4.
    apply String.eqb_neq in N1, N2, N3, N4. rewrite N1, N2, N3, N4 in D.
    injection D as -> ->. rewrite !Rplus_0_r, !clamp_inside by lra.
    now destruct (ballPosition s).
  - intros -> H1 H2. simpl in D. injection D as -> ->. apply clamp_inside. lra.
  - intros -> H1 H2. simpl in D. injection D as -> ->.
    replace (y (ballPosition s) + -10) with (y (ballPosition s) - 10) by lra.
    apply clamp_inside. lra.
Qed.


(** The ball at its start position, moved right. *)
Lemma positioning_stays_in_the_left_half_witness :
  gameState (initial courtR) = positioning /\
  80 <= innerWidth courtR /\ 40 <= innerHeight courtR /\
  BALL_RADIUS <= x (ballPosition (onKeyDown courtR "ArrowRight" (initial courtR)))
    <= innerWidth courtR / 2 - BALL_RADIUS.
Proof.
  assert (HW : 80 <= innerWidth courtR) by (simpl; lra).
  assert (HH : 40 <= innerHeight courtR) by (simpl; lra).
  split; [reflexivity | ]. split; [exact HW | ]. split; [exact HH | ].
  exact (proj1 (positioning_stays_in_the_left_half courtR "ArrowRight" (initial courtR)
                  eq_refl HW HH)).
Defined.

(** X16.  The shadow follows the height of the ball.  Its opacity is never
    negative, at most 0.4 for a ball below the top edge, and 0 for a ball
    at or below the bottom edge; its scale lies between 0.6 and 1.2 for a
    ball inside the window; and both fall, weakly, as [ballPosition.y]
    grows: the shadow is largest and darkest for a ball at the top of the
    window, and gone for a ball at the bottom edge. *)
Theorem shadow_grows_with_height (w : Window R) (s1 s2 : World R) :
  0 < innerHeight w ->
  0 <= ballShadowOpacity w s1 /\
  (0 <= y (ballPosition s1) -> ballShadowOpacity w s1 <= 4 / 10) /\
  (innerHeight w <= y (ballPosition s1) -> ballShadowOpacity w s1 = 0) /\
  (0 <= y (ballPosition s1) <= innerHeight w ->
   6 / 10 <= ballShadowScale w s1 <= 12 / 10) /\
  (y (ballPosition s1) <= y (ballPosition s2) ->
   ballShadowOpacity w s2 <= ballShadowOpacity w s1 /\
   ballShadowScale w s2 <= ballShadowScale w s1).
Proof.
  intros HH. unfold ballShadowOpacity, ballShadowScale.
  cbn [max sub mul div ofQ R_Number].
  replace (Q2R 0) with 0 by (unfold Q2R; simpl; lra).
  replace (Q2R 0.4) with (4 / 10) by (unfold Q2R; simpl; lra).
  replace (Q2R 1.2) with (12 / 10) by (unfold Q2R; simpl; lra).
  replace (Q2R 0.6) with (6 / 10) by (unfold Q2R; simpl; lra).
  set (y1 := y (ballPosition s1)). set (y2 := y (ballPosition s2)).
  assert (Hi : 0 < / innerHeight w) by now apply Rinv_0_lt_compat.
  unfold Rdiv.
  assert (M : forall a c : R, a <= c -> a * / innerHeight w <= c * / innerHeight w).
  { intros a c H. apply Rmult_le_compat_r; lra. }
  assert (U : innerHeight w * / innerHeight w = 1) by (apply Rinv_r; lra).
  split; [apply Rmax_l | ]. split; [ | split; [ | split]].
  - intros H0. pose proof (M 0 y1 H0) as H. apply Rmax_lub; lra.
  - intros H1. pose proof (M _ _ H1) as H. rewrite U in H. apply Rmax_left. lra.
  - intros [H0 H1]. pose proof (M _ _ H0) as A. pose proof (M _ _ H1) as B.
    rewrite U in B. lra.
  - intros H. pose proof (M _ _ H) as A. split; [ | lra].
    apply Rle_max_compat_l. lra.
Qed.


Lemma shadow_grows_with_height_witness :
  0 < innerHeight courtR /\ 0 <= ballShadowOpacity courtR (initial courtR).
Proof.
  assert (HH : 0 < innerHeight courtR) by (simpl; lra).
  split; [exact HH | ].
  exact (proj1 (shadow_grows_with_height courtR (initial courtR) (initial courtR) HH)).
Defined.

End ExactUI.

(** ** Concrete runs of the further properties *)

Section FurtherRuns.
Local Open Scope float_scope.
Local Open Scope js_scope.

Lemma aimed_reachable : reachable svc0 aimed.
Proof.
  apply (run_reachable svc0 court drag (initial court));
    [apply reachable_initial | vm_compute; reflexivity].
Qed.

Lemma inFlight_reachable : reachable svc0 inFlight.
Proof.
  apply (run_reachable svc0 court (drag ++ [FireRequested]) (initial court));
    [apply reachable_initial | vm_compute; reflexivity].
Qed.

Lemma justMissed_reachable : reachable svc0 justMissed.
Proof.
  apply (run_reachable svc0 court feebleShot (initial court));
    [apply reachable_initial | vm_compute; reflexivity].
Qed.

Lemma lyingOnTheFloor_reachable : reachable svc0 lyingOnTheFloor.
Proof.
  apply (run_reachable svc0 court straightUp (initial court));
    [apply reachable_initial | vm_compute; reflexivity].
Qed.

(** The first tick of the shot staged by the drag. *)
Lemma no_score_without_the_flag_witness :
  stagedVelocity aimed = Some (mkVec 9 (-12)) /\
  score (updateGameState court (fireShot aimed)) = score aimed /\
  gameState (updateGameState court (fireShot aimed)) <> scored.
Proof.
  split; [vm_compute; reflexivity | ].
  apply (proj2 (proj2 (@no_score_without_the_flag float _ _)) court aimed (mkVec 9 (-12))).
  vm_compute. reflexivity.
Defined.

(** A shot straight up has come to lie on the floor after 274 frames, and
    lies there, in flight, a thousand frames later. *)
Lemma resting_shot_never_ends_witness :
  atRest court lyingOnTheFloor /\ frames lyingOnTheFloor = [275%nat] /\
  updateGameState court lyingOnTheFloor = lyingOnTheFloor /\
  exists s',
    run svc0 court (map AnimationFrame (275%nat :: seq (nextFrame lyingOnTheFloor) 1000))
      lyingOnTheFloor = Ok s' /\
    atRest court s' /\ ballOf s' = ballOf lyingOnTheFloor /\
    score s' = score lyingOnTheFloor /\ awaiting s' = awaiting lyingOnTheFloor /\
    frames s' = [(nextFrame lyingOnTheFloor + 1000)%nat].
Proof.
  assert (R : atRest court lyingOnTheFloor) by (split; vm_compute; reflexivity).
  assert (F : frames lyingOnTheFloor = [275%nat]) by (vm_compute; reflexivity).
  split; [exact R | ]. split; [exact F | ].
  exact (resting_shot_never_ends svc0 court 1000 lyingOnTheFloor 275 R F).
Defined.

Example a_shot_straight_up_never_ends :
  reachable svc0 lyingOnTheFloor /\
  gameState lyingOnTheFloor = shooting /\
  ballOf lyingOnTheFloor = mkBall (mkVec 150 780) (mkVec 0 (-0.16470588235294117)) /\
  geminiMessage lyingOnTheFloor = ""%string /\ awaiting lyingOnTheFloor = [].
Proof.
  split; [exact lyingOnTheFloor_reachable | ]. repeat split; vm_compute; reflexivity.
Qed.

(** One shot fired and reset, no basket. *)
Lemma score_never_exceeds_shots_witness :
  reachable svc0 reAimed /\
  (score reAimed <= shots reAimed)%nat /\
  (frames reAimed <> [] -> (score reAimed < shots reAimed)%nat).
Proof.
  split; [exact reAimed_reachable | ].
  exact (score_never_exceeds_shots svc0 reAimed reAimed_reachable).
Defined.

(** The shot staged by the drag, just fired. *)
Lemma shot_in_flight_is_undisturbed_witness :
  reachable svc0 inFlight /\ gameState inFlight = shooting /\
  (exists h, frames inFlight = [h] /\ animationFrameId inFlight = Some h) /\
  stagedVelocity inFlight = None /\
  (forall (w : Window float) (key : string),
     dispatch svc0 w (KeyDown key) inFlight = Ok inFlight) /\
  (forall (w : Window float) (p : Vec float),
     dispatch svc0 w (PointerDown p) inFlight = Ok inFlight /\
     dispatch svc0 w (PointerMove p) inFlight = Ok inFlight /\
     dispatch svc0 w (PointerUp p) inFlight = Ok inFlight) /\
  (forall w : Window float, dispatch svc0 w FireRequested inFlight = Ok inFlight).
Proof.
  assert (G : gameState inFlight = shooting) by (vm_compute; reflexivity).
  split; [exact inFlight_reachable | ]. split; [exact G | ].
  exact (shot_in_flight_is_undisturbed svc0 inFlight inFlight_reachable G).
Defined.

(** A feeble shot has just been missed: the commentary is loading, and
    its call is in flight. *)
Lemma indicators_are_backed_witness :
  reachable svc0 justMissed /\
  (isLoadingGemini justMissed = true -> awaiting justMissed <> []) /\
  (animateScore justMissed = true -> In ClearAnimateScore (timers justMissed)) /\
  (animateNet justMissed = true -> In ClearAnimateNet (timers justMissed)).
Proof.
  split; [exact justMissed_reachable | ].
  exact (indicators_are_backed svc0 justMissed justMissed_reachable).
Defined.

Example a_feeble_shot_is_missed :
  gameState justMissed = missed /\ isLoadingGemini justMissed = true /\
  awaiting justMissed = [false] /\ frames justMissed = [].
Proof. repeat split; vm_compute; reflexivity. Qed.

(** The shot just fired is reset while its first frame is pending. *)
Lemma reset_leaves_the_pending_frame_witness :
  frames inFlight = [1%nat] /\
  frames (resetShot court inFlight) = [1%nat] /\
  ballOf (cancelAnimationFrame 1 (resetShot court inFlight)) =
    mkBall (mkVec (ofQ 150) (innerHeight court - ofQ 150)) (mkVec (ofQ 0) (ofQ 0)) /\
  dispatch svc0 court (AnimationFrame 1) (resetShot court inFlight) =
    Ok (updateGameState court (cancelAnimationFrame 1 (resetShot court inFlight))) /\
  frames (updateGameState court (cancelAnimationFrame 1 (resetShot court inFlight))) = [] /\
  gameState (updateGameState court (cancelAnimationFrame 1 (resetShot court inFlight)))
    <> shooting.
Proof.
  assert (F : frames inFlight = [1%nat]) by (vm_compute; reflexivity).
  split; [exact F | ].
  exact (reset_leaves_the_pending_frame svc0 court court inFlight 1 F).
Defined.

(** The ball of the stale frame falls from its start position. *)
Example stale_frame_moves_the_reset_ball :
  ballPosition (updateGameState court (cancelAnimationFrame 1 (resetShot court inFlight)))
    = mkVec 150 650.4 /\
  gameState (updateGameState court (cancelAnimationFrame 1 (resetShot court inFlight)))
    = positioning.
Proof. split; vm_compute; reflexivity. Qed.

(** The game is reset while a commentary call is in flight, and the remote
    model turns out to be down. *)
Lemma reset_does_not_cancel_commentary_witness :
  nth_error (awaiting waiting) 0 = Some true /\
  geminiMessage (resetShot court waiting) = ""%string /\
  exists s',
    dispatch svc0 court (ReactionSettled 0 modelDown) (resetShot court waiting) = Ok s' /\
    gameState s' = positioning /\
    geminiMessage s' =
      match fst (Gemini.getShotReaction svc0 modelDown true) with
      | Ok message => message
      | Throw _ => FALLBACK
      end.
Proof.
  assert (E : nth_error (awaiting waiting) 0 = Some true) by (vm_compute; reflexivity).
  split; [exact E | ].
  exact (reset_does_not_cancel_commentary svc0 court court 0 modelDown true waiting E).
Defined.

(** Ready to fire after the drag. *)
Lemma exactly_four_keys_fire_witness :
  gameState aimed = ready /\
  (In "X"%string ["x"; "X"; "c"; "C"]%string ->
   onKeyDown court "X" aimed = fireShot aimed) /\
  (~ In "X"%string ["x"; "X"; "c"; "C"]%string -> onKeyDown court "X" aimed = aimed).
Proof.
  assert (G : gameState aimed = ready) by (vm_compute; reflexivity).
  split; [exact G | ].
  exact (exactly_four_keys_fire court "X" aimed G).
Defined.

End FurtherRuns.
